(** * lsgroup: a verified model of the directory report script

    The development follows [lsgroup.py]: the size formatter, the directory
    lister, the file categorizer and the summary printer, each embedded as
    an executable Rocq function, followed by the properties proved of them.

    Conventions of the embedding.
    - A Python [str] is a [string]; [str.lower] and [str.casefold] act on
      the letters [A]-[Z] (names are taken to be ASCII).
    - A Python [int] is a [Z]; a Python [float] is a binary64 value, kept
      as a mantissa and a binary exponent.
    - A [dict] is a [gmap]; a [set] of strings is a [gset string].
    - [os.scandir] is the list of the entries it yields, in the order it
      yields them. *)

From Stdlib Require Import ZArith Lia Ascii String List Bool.
From stdpp Require Import base decidable option list sorting gmap strings pretty.

Local Open Scope Z_scope.

(** ** Python numbers *)

Module PyNum.

(** A finite binary64 value [mant * 2 ^ expo]. *)
Record float := Float { mant : Z; expo : Z }.

(** Round-half-to-even quotient of [n] by [d], for [0 <= n] and [0 < d]. *)
Definition rne (n d : Z) : Z :=
  let q := n / d in
  let r := n mod d in
  if 2 * r <? d then q
  else if d <? 2 * r then q + 1
  else if Z.even q then q else q + 1.

(** [2 ^ k * d <= n], for any sign of [k]. *)
Definition scaled_le (k d n : Z) : bool :=
  if 0 <=? k then d * 2 ^ k <=? n else d <=? n * 2 ^ (- k).

(** The quotient [n / (d * 2 ^ e)] rounded half-to-even, for any sign of [e]. *)
Definition rne_scaled (n d e : Z) : Z :=
  if 0 <=? e then rne n (d * 2 ^ e) else rne (n * 2 ^ (- e)) d.

(** The binary64 value nearest to [n / d] (ties to even) for [0 < n] and
    [0 < d]: a 53-bit mantissa, or [None] when the rounded value does not
    fit a binary64 ([OverflowError]).  Quotients of integers at least as
    large as the divisor never reach the subnormal range. *)
Definition nearest_pos (n d : Z) : option float :=
  let k := Z.log2 n - Z.log2 d in
  let s := if scaled_le k d n then k else k - 1 in
  let e := s - 52 in
  let m := rne_scaled n d e in
  let '(m, e) := if m =? 2 ^ 53 then (2 ^ 52, e + 1) else (m, e) in
  if 971 <? e then None else Some (Float m e).

(** Correctly rounded [n / d] for integers, [0 < d]: this is [float(n)]
    when [d = 1] and the true division [n / d] of two [int]s otherwise. *)
Definition nearest (n d : Z) : option float :=
  if n =? 0 then Some (Float 0 0)
  else if 0 <? n then nearest_pos n d
  else match nearest_pos (- n) d with
       | Some f => Some (Float (- mant f) (expo f))
       | None => None
       end.

Definition float_of_int (n : Z) : option float := nearest n 1.

(** [x / 1024] on a float: the exponent drops by ten.  The quotient is
    exact as long as it stays a normal number, which holds for every
    value of magnitude at least 1024, the only ones the script divides. *)
Definition float_div_1024 (x : float) : float :=
  Float (mant x) (expo x - 10).

(** [x < 1024] on a float. *)
Definition float_lt_1024 (x : float) : bool :=
  if 0 <=? expo x then mant x * 2 ^ expo x <? 1024
  else mant x <? 1024 * 2 ^ (- expo x).

(** Ten times the magnitude of [x], rounded half-to-even to an integer. *)
Definition float_tenths (x : float) : Z :=
  if 0 <=? expo x then 10 * Z.abs (mant x) * 2 ^ expo x
  else rne (10 * Z.abs (mant x)) (2 ^ (- expo x)).

(** The digits of [t] tenths: integer part, point, one fractional digit. *)
Definition one_decimal (t : Z) : string :=
  pretty (t / 10) +:+ "." +:+ pretty (t mod 10).

(** [f"{x:.1f}"] on a float. *)
Definition format_float_1f (x : float) : string :=
  (if mant x <? 0 then "-" else "") +:+ one_decimal (float_tenths x).

(** The two kinds of number [size_in_bytes] takes in [format_size]. *)
Inductive number :=
  | Int (n : Z)
  | Flt (x : float).

(** [x < 1024] *)
Definition lt_1024 (x : number) : bool :=
  match x with
  | Int n => n <? 1024
  | Flt f => float_lt_1024 f
  end.

(** [x / 1024]: always a float; [None] stands for [OverflowError]. *)
Definition div_1024 (x : number) : option number :=
  match x with
  | Int n => Flt <$> nearest n 1024
  | Flt f => Some (Flt (float_div_1024 f))
  end.

(** [f"{x:.1f}"]: an [int] is converted to a float first. *)
Definition format_1f (x : number) : option string :=
  match x with
  | Int n => format_float_1f <$> float_of_int n
  | Flt f => Some (format_float_1f f)
  end.

End PyNum.

(** ** Size formatter *)

(** The [for unit in ...] loop of [format_size], on the units still to try. *)
Fixpoint format_size_loop (units : list string) (size_in_bytes : PyNum.number)
  : option string :=
  match units with
  | unit :: units' =>
      if PyNum.lt_1024 size_in_bytes
      then (fun s => s +:+ unit) <$> PyNum.format_1f size_in_bytes
      else PyNum.div_1024 size_in_bytes ≫= format_size_loop units'
  | [] => (fun s => s +:+ "T") <$> PyNum.format_1f size_in_bytes
  end.

Definition format_size (size_in_bytes : Z) : option string :=
  format_size_loop ["B"; "K"; "M"; "G"] (PyNum.Int size_in_bytes).

(** ** Python strings and paths *)

Module PyStr.

(** [str.lower] on one character. *)
Definition lower_char (c : ascii) : ascii :=
  let n := N_of_ascii c in
  if ((65 <=? n) && (n <=? 90))%N then ascii_of_N (n + 32) else c.

Fixpoint lower (s : string) : string :=
  match s with
  | EmptyString => EmptyString
  | String c s' => String (lower_char c) (lower s')
  end.

(** [str.casefold]; on ASCII text it is [lower]. *)
Definition casefold (s : string) : string := lower s.

(** [s.startswith(p)] *)
Definition startswith (s p : string) : bool := String.prefix p s.

(** [c in s] for a character [c]. *)
Fixpoint contains (c : ascii) (s : string) : bool :=
  match s with
  | EmptyString => false
  | String a s' => Ascii.eqb a c || contains c s'
  end.

(** Truth value of a string: non-empty. *)
Definition truthy (s : string) : bool :=
  match s with EmptyString => false | _ => true end.

(** [x or y] on strings. *)
Definition or_else (x y : string) : string := if truthy x then x else y.

Fixpoint rfind_from (c : ascii) (s : string) (i acc : Z) : Z :=
  match s with
  | EmptyString => acc
  | String a s' => rfind_from c s' (i + 1) (if Ascii.eqb a c then i else acc)
  end.

(** [s.rfind(c)]: the last index of [c] in [s], or [-1]. *)
Definition rfind (c : ascii) (s : string) : Z := rfind_from c s 0 (-1).

(** [s.find(c)]: the first index of [c] in [s], or [-1]. *)
Fixpoint find (c : ascii) (s : string) : Z :=
  match s with
  | EmptyString => -1
  | String a s' =>
      if Ascii.eqb a c then 0
      else let i := find c s' in if i <? 0 then -1 else i + 1
  end.

(** [s[:i]] and [s[i:]] for [0 <= i]. *)
Definition take (i : Z) (s : string) : string :=
  String.substring 0 (Z.to_nat i) s.
Definition drop (i : Z) (s : string) : string :=
  String.substring (Z.to_nat i) (String.length s - Z.to_nat i) s.

(** [s[i:i+1] != "."] *)
Definition not_dot_at (s : string) (i : Z) : bool :=
  match String.get (Z.to_nat i) s with
  | Some c => negb (Ascii.eqb c ".")
  | None => true
  end.

(** [os.path.splitext] (posix): the extension starts at the last dot of
    the last path component, leading dots of that component apart. *)
Definition splitext (p : string) : string * string :=
  let sepIndex := rfind "/" p in
  let dotIndex := rfind "." p in
  if (sepIndex <? dotIndex)
     && existsb (not_dot_at p)
          (map (fun k => sepIndex + 1 + Z.of_nat k)
               (seq 0 (Z.to_nat (dotIndex - (sepIndex + 1)))))
  then (take dotIndex p, drop dotIndex p)
  else (p, EmptyString).

(** [os.path.join(a, b)] (posix). *)
Definition path_join (a b : string) : string :=
  if startswith b "/" then b
  else if negb (truthy a) || (Ascii.eqb (List.last (list_ascii_of_string a) "/"%char) "/")
       then a +:+ b
       else a +:+ "/" +:+ b.

(** [f"{s:<n}"]: pad with spaces on the right up to [n] characters. *)
Definition ljust (n : nat) (s : string) : string :=
  s +:+ string_of_list_ascii (repeat " "%char (n - String.length s)).

End PyStr.

(** ** Directory entries *)

(** What an entry resolves to: [is_dir()], [is_file()], or neither
    (a socket, a device, a dangling link). *)
Inductive EntryKind := Directory | RegularFile | Special.

Global Instance EntryKind_eq_dec : EqDecision EntryKind.
Proof. solve_decision. Defined.

(** One [os.DirEntry] with what the script reads of it: its name, its kind,
    [stat().st_size], and the answer of [os.access(path, os.X_OK)]. *)
Record DirEntry := mkEntry {
  name : string;
  kind : EntryKind;
  st_size : Z;
  access_x : bool
}.

Definition is_dir (entry : DirEntry) : bool := bool_decide (kind entry = Directory).
Definition is_file (entry : DirEntry) : bool := bool_decide (kind entry = RegularFile).

(** [entry.path] for a scan of [directory]. *)
Definition entry_path (directory : string) (entry : DirEntry) : string :=
  PyStr.path_join directory (name entry).

(** ** Sorting *)

Section sorted_by.
Context {A : Type} (key : A → string).

(** [x] goes in front of the first element whose key is not below its own. *)
Fixpoint insert_by (x : A) (l : list A) : list A :=
  match l with
  | [] => [x]
  | y :: l' =>
      if String.leb (key x) (key y) then x :: y :: l' else y :: insert_by x l'
  end.

(** [sorted(l, key=key)] and [l.sort(key=key)]: a stable sort on the keys,
    compared as strings.  Any stable sort returns this list. *)
Definition sorted_by (l : list A) : list A := foldr insert_by [] l.
End sorted_by.

(** ** Directory lister *)

Definition list_directories (entries : list DirEntry) : list string * list string :=
  let '(hidden_dirs, visible_dirs) :=
    foldl (fun '(hidden_dirs, visible_dirs) entry =>
             if is_dir entry then
               if PyStr.startswith (name entry) "."
               then (hidden_dirs ++ [name entry], visible_dirs)
               else (hidden_dirs, visible_dirs ++ [name entry])
             else (hidden_dirs, visible_dirs))
          ([], []) entries in
  (sorted_by PyStr.casefold hidden_dirs, sorted_by PyStr.casefold visible_dirs).

(** ** File categorizer *)

(** [(file, size)] *)
Definition FileInfo : Type := string * Z.

(** The four categories that are dictionaries keyed by extension. *)
Inductive Keyed := ImageVideo | Document | Executable | Programming.

Global Instance Keyed_eq_dec : EqDecision Keyed.
Proof. solve_decision. Defined.

(** The five categories; [Other] is the one that holds a flat list. *)
Inductive Category := InGroup (c : Keyed) | Other.

Global Instance Category_eq_dec : EqDecision Category.
Proof. solve_decision. Defined.

(** The [categories] dictionary: its five keys are fixed, so it is a record. *)
Record Categories := mkCategories {
  image_video : gmap string (list FileInfo);
  document : gmap string (list FileInfo);
  executable : gmap string (list FileInfo);
  programming : gmap string (list FileInfo);
  other : list FileInfo
}.

Definition empty_categories : Categories := mkCategories ∅ ∅ ∅ ∅ [].

(** [categories[c]] *)
Definition group (c : Keyed) (categories : Categories) : gmap string (list FileInfo) :=
  match c with
  | ImageVideo => image_video categories
  | Document => document categories
  | Executable => executable categories
  | Programming => programming categories
  end.

Definition set_group (c : Keyed) (g : gmap string (list FileInfo))
    (categories : Categories) : Categories :=
  match c with
  | ImageVideo => mkCategories g (document categories) (executable categories)
                    (programming categories) (other categories)
  | Document => mkCategories (image_video categories) g (executable categories)
                    (programming categories) (other categories)
  | Executable => mkCategories (image_video categories) (document categories) g
                    (programming categories) (other categories)
  | Programming => mkCategories (image_video categories) (document categories)
                    (executable categories) g (other categories)
  end.

(** [d[ext].append(file_info)] on a [defaultdict(list)]: a missing key
    starts from the empty list. *)
Definition dict_append (ext : string) (file_info : FileInfo)
    (d : gmap string (list FileInfo)) : gmap string (list FileInfo) :=
  <[ext := (d !!! ext) ++ [file_info]]> d.

(** [categories[c][ext].append(file_info)] *)
Definition append_keyed (c : Keyed) (ext : string) (file_info : FileInfo)
    (categories : Categories) : Categories :=
  set_group c (dict_append ext file_info (group c categories)) categories.

(** [categories["Other"].append(file_info)] *)
Definition append_other (file_info : FileInfo) (categories : Categories) : Categories :=
  mkCategories (image_video categories) (document categories)
    (executable categories) (programming categories)
    (other categories ++ [file_info]).

Definition image_video_extensions : gset string :=
  {[ ".jpg"; ".jpeg"; ".png"; ".gif"; ".bmp"; ".mp4"; ".mkv"; ".avi"; ".mov"; ".heic";
     ".webp"; ".mpg"; ".tiff"; ".tif"; ".svg"; ".ico"; ".raw"; ".mp3"; ".wav"; ".flac";
     ".ogg"; ".aac"; ".m4a"; ".wmv"; ".flv"; ".3gp"; ".m4v"; ".vob"; ".rm"; ".ts" ]}.

Definition document_extensions : gset string :=
  {[ ".pdf"; ".docx"; ".doc"; ".xlsx"; ".xls"; ".pptx"; ".txt"; ".epub"; ".csv"; ".pcap";
     ".pcapng"; ".rtf"; ".odt"; ".ods"; ".odp"; ".log"; ".md"; ".ini"; ".yaml"; ".yml";
     ".tex"; ".db" ]}.

Definition executable_extensions : gset string :=
  {[ ".exe"; ".bat"; ".sh"; ".py"; ".pl"; ".jar"; ".bin"; ".cmd"; ".php"; ".msi"; ".deb";
     ".rpm"; ".apk"; ".dmg"; ".app"; ".run"; ".vbs"; ".ps1" ]}.

Definition programming_extensions : gset string :=
  {[ ".html"; ".json"; ".pickle"; ".sql"; ".xml"; ".cpp"; ".c"; ".h"; ".hpp"; ".java";
     ".js"; ".jsx"; ".ts"; ".tsx"; ".rb"; ".go"; ".swift"; ".rs"; ".kt"; ".cs"; ".jsp" ]}.

(** The sets are tables: proofs read them by evaluation only. *)
Global Opaque image_video_extensions document_extensions executable_extensions
  programming_extensions.

(** [os.path.splitext(file)[1].lower() or "(no extension)"] *)
Definition extension (file : string) : string :=
  PyStr.or_else (PyStr.lower (PyStr.splitext file).2) "(no extension)".

(** [x[0].casefold()], the sort key of a [(file, size)] pair. *)
Definition name_key (x : FileInfo) : string := PyStr.casefold x.1.

(** The closing loop over one keyed group: every list is sorted in place,
    the keys being visited in sorted order. *)
Definition sort_group (g : gmap string (list FileInfo)) : gmap string (list FileInfo) :=
  foldl (fun g ext => alter (sorted_by name_key) ext g) g
        (sorted_by id (map_to_list g).*1).

Section categorizer.
(** [mimetypes.guess_type(path)[0]]: the guess depends on the MIME tables
    of the machine, so it is a parameter of the scan. *)
Variable guess_type : string → option string.

(** The body of the scan loop. *)
Definition categorize_entry (directory : string) (categories : Categories)
    (entry : DirEntry) : Categories :=
  if is_file entry then
    let filepath := entry_path directory entry in
    let file := name entry in
    let ext := extension file in
    let size := st_size entry in
    let file_info := (file, size) in
    if bool_decide (ext ∈ image_video_extensions) then
      append_keyed ImageVideo ext file_info categories
    else if bool_decide (ext ∈ document_extensions) then
      append_keyed Document ext file_info categories
    else if bool_decide (ext ∈ executable_extensions) || access_x entry then
      append_keyed Executable ext file_info categories
    else if bool_decide (ext ∈ programming_extensions) then
      append_keyed Programming ext file_info categories
    else
      match guess_type filepath with
      | Some mime_type =>
          if PyStr.truthy mime_type then
            if PyStr.startswith mime_type "image" || PyStr.startswith mime_type "video" then
              append_keyed ImageVideo ext file_info categories
            else if PyStr.startswith mime_type "application"
                    || PyStr.startswith mime_type "text" then
              append_keyed Document ext file_info categories
            else if PyStr.startswith mime_type "application/x-executable" then
              append_keyed Executable ext file_info categories
            else
              append_other file_info categories
          else append_other file_info categories
      | None => append_other file_info categories
      end
  else categories.

(** The scan loop, before the lists are sorted. *)
Definition scan_files (directory : string) (entries : list DirEntry) : Categories :=
  foldl (categorize_entry directory) empty_categories entries.

(** The closing loop: the lists of every category are sorted. *)
Definition sort_categories (categories : Categories) : Categories :=
  mkCategories (sort_group (image_video categories))
    (sort_group (document categories))
    (sort_group (executable categories))
    (sort_group (programming categories))
    (sorted_by name_key (other categories)).

Definition categorize_files (directory : string) (entries : list DirEntry) : Categories :=
  sort_categories (scan_files directory entries).
End categorizer.

(** ** Report renderer: the summary *)

(** What a printing function has done when it stops: the strings it
    printed, one per [print] call, and its result, [None] when an exception
    ended it. *)
Definition Out (A : Type) : Type := list string * option A.

Global Instance Out_ret : MRet Out := fun A a => ([], Some a).
Global Instance Out_bind : MBind Out := fun A B f m =>
  match m.2 with
  | Some a => (m.1 ++ (f a).1, (f a).2)
  | None => (m.1, None)
  end.

Definition print (s : string) : Out unit := ([s], Some tt).

(** A call that may raise. *)
Definition try_call {A} (r : option A) : Out A := ([], r).

(** [for x in l: body(x)] *)
Fixpoint for_each {A} (l : list A) (body : A → Out unit) : Out unit :=
  match l with
  | [] => mret tt
  | x :: l' => body x ≫= fun _ => for_each l' body
  end.

(** [sum(l)] *)
Definition sum (l : list Z) : Z := foldl Z.add 0 l.

(** A value of the [categories] dictionary: a dictionary of lists for the
    four keyed categories, a list for ["Other"]. *)
Inductive Group :=
  | Dict (d : gmap string (list FileInfo))
  | Flat (l : list FileInfo).

Definition keyed_name (c : Keyed) : string :=
  match c with
  | ImageVideo => "Image/Video"
  | Document => "Document"
  | Executable => "Executable"
  | Programming => "Programming"
  end.

Definition category_name (c : Category) : string :=
  match c with
  | InGroup c => keyed_name c
  | Other => "Other"
  end.

(** [categories.items()], in the order the keys were written. *)
Definition items (categories : Categories) : list (string * Group) :=
  [ ("Image/Video", Dict (image_video categories));
    ("Document", Dict (document categories));
    ("Executable", Dict (executable categories));
    ("Programming", Dict (programming categories));
    ("Other", Flat (other categories)) ].

(** [group.values()] and [group[ext] for ext in group] *)
Definition dict_values (d : gmap string (list FileInfo)) : list (list FileInfo) :=
  (map_to_list d).*2.

(** The [count] of [display_summary]; the test [category != "Other"] is
    the test that the value is a dictionary. *)
Definition group_count (g : Group) : Z :=
  match g with
  | Dict d => sum (map (fun files => Z.of_nat (length files)) (dict_values d))
  | Flat l => Z.of_nat (length l)
  end.

(** The [total_size] of [display_summary]. *)
Definition group_total_size (g : Group) : Z :=
  match g with
  | Dict d => sum (map snd (concat (dict_values d)))
  | Flat l => sum (map snd l)
  end.

Definition newline : string := String "010"%char EmptyString.

(** [f"{category:<15}{count:<10}{size:<15}"] *)
Definition summary_row (category : string) (count : Z) (size : string) : string :=
  PyStr.ljust 15 category +:+ PyStr.ljust 10 (pretty count) +:+ PyStr.ljust 15 size.

Definition display_summary (categories : Categories) : Out unit :=
  print (newline +:+ "Summary:") ≫= fun _ =>
  print (PyStr.ljust 15 "Category" +:+ PyStr.ljust 10 "Count"
           +:+ PyStr.ljust 15 "Total Size") ≫= fun _ =>
  print (string_of_list_ascii (repeat "-"%char 40)) ≫= fun _ =>
  for_each (items categories) (fun '(category, group) =>
    let count := group_count group in
    let total_size := group_total_size group in
    if 0 <? count then
      try_call (format_size total_size) ≫= fun size =>
      print (summary_row category count size)
    else mret tt).

(** ** Report renderer: directories and files *)

(** Truth value of a list: non-empty. *)
Definition nonempty {A} (l : list A) : bool :=
  match l with [] => false | _ => true end.

Section renderer.
(** [termcolor.colored(text, color)]: what it adds to the text depends on
    the terminal and the environment, so it is a parameter. *)
Variable colored : string → string → string.

Definition display_directories (hidden_dirs visible_dirs : list string) : Out unit :=
  print (newline +:+ "Directories:") ≫= fun _ =>
  print (string_of_list_ascii (repeat "-"%char 40)) ≫= fun _ =>
  (if nonempty hidden_dirs then
     print "Hidden Directories:" ≫= fun _ =>
     for_each hidden_dirs (fun d => print ("  " +:+ colored d "cyan"))
   else mret tt) ≫= fun _ =>
  if nonempty visible_dirs then
    print (newline +:+ "Visible Directories:") ≫= fun _ =>
    for_each visible_dirs (fun d => print ("  " +:+ colored d "yellow"))
  else mret tt.

(** [print(f"{indent}{format_size(size):<10} {colored(file, color):<50}")] *)
Definition print_file (indent color : string) (info : FileInfo) : Out unit :=
  try_call (format_size info.2) ≫= fun size =>
  print (indent +:+ PyStr.ljust 10 size +:+ " " +:+ PyStr.ljust 50 (colored info.1 color)).

(** The listing of one keyed category: the extensions in the order
    [sorted(group, key=str.casefold)], each with its files.  The sort is
    stable on the order of the keys of the dictionary, which a [gmap] does
    not keep: the model is the code when no two keys share a case folding,
    as in every dictionary [categorize_files] builds. *)
Definition print_group (color : string) (group : gmap string (list FileInfo)) : Out unit :=
  for_each (sorted_by PyStr.casefold (map_to_list group).*1) (fun ext =>
    if nonempty (group !!! ext) then
      print ("  Files with extension " +:+ ext +:+ ":") ≫= fun _ =>
      for_each (group !!! ext) (print_file "    " color)
    else mret tt).

(** As in [display_summary], the tests on [category == "Other"] are the
    test that the value is the list. *)
Definition display_files (categories : Categories) : Out unit :=
  print (string_of_list_ascii (repeat "-"%char 40)) ≫= fun _ =>
  for_each (items categories) (fun '(category, group) =>
    match group with
    | Flat files =>
        if negb (nonempty files) then mret tt
        else
          print (newline +:+ category +:+ " Files:") ≫= fun _ =>
          for_each files (print_file "  " "blue")
    | Dict group =>
        if negb (existsb nonempty (dict_values group)) then mret tt
        else
          print (newline +:+ category +:+ " Files:") ≫= fun _ =>
          if String.eqb category "Image/Video" then print_group "magenta" group
          else print_group "green" group
    end).

(** ** The script *)

(** The main execution for a directory given on the command line (or the
    current one): the two scans enumerate the directory one after the
    other, so each has its own list of entries. *)
Definition main (guess_type : string → option string) (current_directory : string)
    (entries entries' : list DirEntry) : Out unit :=
  print (newline +:+ "Scanning Directory: " +:+ current_directory) ≫= fun _ =>
  let '(hidden_dirs, visible_dirs) := list_directories entries in
  display_directories hidden_dirs visible_dirs ≫= fun _ =>
  let categories := categorize_files guess_type current_directory entries' in
  display_files categories ≫= fun _ =>
  display_summary categories.
End renderer.

(** ** A sample of [termcolor.colored] *)

(** With the colours off (the variable [NO_COLOR], or an output that is
    not a terminal), [termcolor] returns the text as it is. *)
Definition colored_plain (text color : string) : string := text.

(** ** A sample of [mimetypes.guess_type] *)

(** Modelled from CPython's [mimetypes]: the branch for [data:] URLs and
    an excerpt of the default table of types.  The theorems hold for any
    guessing function; this one instantiates them on concrete scans. *)
Definition guess_type_sample (url : string) : option string :=
  if PyStr.startswith url "data:" then
    let url := PyStr.drop 5 url in
    let comma := PyStr.find "," url in
    if comma <? 0 then None
    else
      let semi := PyStr.find ";" (PyStr.take comma url) in
      let type := if 0 <=? semi then PyStr.take semi url else PyStr.take comma url in
      if (0 <=? PyStr.find "=" type) || (PyStr.find "/" type <? 0)
      then Some "text/plain" else Some type
  else
    let ext := PyStr.lower (PyStr.splitext url).2 in
    if String.eqb ext ".jpe" then Some "image/jpeg"
    else if String.eqb ext ".mpeg" then Some "video/mpeg"
    else if String.eqb ext ".css" then Some "text/css"
    else if String.eqb ext ".zip" then Some "application/zip"
    else if String.eqb ext ".jpg" then Some "image/jpeg"
    else if String.eqb ext ".txt" then Some "text/plain"
    else None.

(** * Vocabulary of the properties *)

Import PyNum.

(** ** Sorting and counting *)

(** The order the sort establishes: keys compared as strings. *)
Definition key_le {A : Type} (key : A → string) (x y : A) : Prop :=
  String.le (key x) (key y).

(** How many times [x] occurs in [l]. *)
Definition occurrences {A} `{EqDecision A} (x : A) (l : list A) : nat :=
  length (filter (x =.) l).

(** A dictionary entry for a list: no key for the empty list. *)
Definition opt_list {A} (l : list A) : option (list A) :=
  if decide (l = []) then None else Some l.

(** ** Directories *)

(** The names of the subdirectories, in the order of the enumeration. *)
Definition dir_names (entries : list DirEntry) : list string :=
  name <$> filter (fun entry => is_dir entry) entries.

(** The name starts with a dot. *)
Definition is_hidden (n : string) : Prop := PyStr.startswith n "." = true.

Global Instance is_hidden_dec n : Decision (is_hidden n).
Proof. unfold is_hidden. apply _. Defined.

(** ** Classification *)

(** The pair the scan stores for a file. *)
Definition file_info (entry : DirEntry) : FileInfo := (name entry, st_size entry).

(** The extension set of a keyed category. *)
Definition extension_set (c : Keyed) : gset string :=
  match c with
  | ImageVideo => image_video_extensions
  | Document => document_extensions
  | Executable => executable_extensions
  | Programming => programming_extensions
  end.

(** The category a guessed MIME type stands for, as the specification
    words the fallback: image or video, then application or text, then
    [Other]. *)
Definition mime_category (mime : option string) : Category :=
  match mime with
  | Some mime_type =>
      if PyStr.startswith mime_type "image" || PyStr.startswith mime_type "video"
      then InGroup ImageVideo
      else if PyStr.startswith mime_type "application" || PyStr.startswith mime_type "text"
      then InGroup Document
      else Other
  | None => Other
  end.

(** Appending to a category: under the extension for a keyed one. *)
Definition add_file (c : Category) (ext : string) (fi : FileInfo)
    (categories : Categories) : Categories :=
  match c with
  | InGroup c => append_keyed c ext fi categories
  | Other => append_other fi categories
  end.

(** The list a category keeps for an extension; [Other] keeps one list. *)
Definition bucket (categories : Categories) (c : Category) (ext : string) : list FileInfo :=
  match c with
  | InGroup c => group c categories !!! ext
  | Other => other categories
  end.

Section classification_vocabulary.
Variable guess_type : string → option string.

(** The precedence of the specification: the four extension sets in
    order, the execute permission counting with the third, then the
    MIME guess. *)
Definition classify (directory : string) (entry : DirEntry) : Category :=
  let ext := extension (name entry) in
  if bool_decide (ext ∈ image_video_extensions) then InGroup ImageVideo
  else if bool_decide (ext ∈ document_extensions) then InGroup Document
  else if bool_decide (ext ∈ executable_extensions) || access_x entry
  then InGroup Executable
  else if bool_decide (ext ∈ programming_extensions) then InGroup Programming
  else mime_category (guess_type (entry_path directory entry)).

(** The entry is a regular file of the bucket of [c] and [ext]; the
    extension does not count for Other. *)
Definition in_bucket (directory : string) (c : Category) (ext : string)
    (entry : DirEntry) : Prop :=
  is_file entry = true ∧ classify directory entry = c
  ∧ (c = Other ∨ extension (name entry) = ext).

Global Instance in_bucket_dec directory c ext entry :
  Decision (in_bucket directory c ext entry).
Proof. unfold in_bucket. apply _. Defined.

(** The pairs of the files of an enumeration that belong to one bucket,
    in the order of the enumeration. *)
Definition bucket_files (directory : string) (c : Category) (ext : string)
    (entries : list DirEntry) : list FileInfo :=
  file_info <$> filter (in_bucket directory c ext) entries.
End classification_vocabulary.

(** The pairs of the regular files of an enumeration that [classify] sends
    to a category. *)
Definition classified_files (guess_type : string → option string) (directory : string)
    (c : Category) (entries : list DirEntry) : list FileInfo :=
  file_info <$> filter (fun e => is_file e = true ∧ classify guess_type directory e = c)
                  entries.

(** ** The summary *)

(** The five categories in the order [categories] lists them. *)
Definition all_categories : list Category :=
  [InGroup ImageVideo; InGroup Document; InGroup Executable; InGroup Programming; Other].

(** The value of the [categories] dictionary under a category. *)
Definition category_group (categories : Categories) (c : Category) : Group :=
  match c with
  | InGroup c => Dict (group c categories)
  | Other => Flat (other categories)
  end.

(** All the pairs a category holds: those of every list of a keyed
    category, those of the list of Other. *)
Definition members (categories : Categories) (c : Category) : list FileInfo :=
  match c with
  | InGroup c => concat (dict_values (group c categories))
  | Other => other categories
  end.

(** The three lines printed above the rows. *)
Definition summary_header : list string :=
  [ newline +:+ "Summary:";
    PyStr.ljust 15 "Category" +:+ PyStr.ljust 10 "Count" +:+ PyStr.ljust 15 "Total Size";
    string_of_list_ascii (repeat "-"%char 40) ].

(** ** Sizes *)

(** The integer nearest to [b] among those with a 53-bit mantissa, ties to
    even: the value of [float(b)] for [0 <= b]. *)
Definition round53 (b : Z) : Z :=
  if b <? 2 ^ 53 then b
  else let e := Z.log2 b - 52 in rne b (2 ^ e) * 2 ^ e.

(** The float [f] is the non-negative rational [R / 2 ^ t]. *)
Definition is_ratio (f : float) (R t : Z) : Prop :=
  0 ≤ mant f
  ∧ (0 ≤ expo f + t → R = mant f * 2 ^ (expo f + t))
  ∧ (expo f + t < 0 → mant f = R * 2 ^ (- (expo f + t))).

(** The unit the loop stops at for a float [R / 2 ^ t], with the exponent
    of the divisor reached there. *)
Fixpoint pick_unit (units : list string) (R t : Z) : Z * string :=
  match units with
  | unit :: units' => if R <? 1024 * 2 ^ t then (t, unit) else pick_unit units' R (t + 10)
  | [] => (t, "T")
  end.

(** The index of the unit of a byte count: 0 for B up to 4 for T. *)
Definition unit_index (b : Z) : Z :=
  if b <? 1024 then 0
  else if b <? 1024 ^ 2 then 1
  else if b <? 1024 ^ 3 then 2
  else if b <? 1024 ^ 4 then 3
  else 4.

(** The letter of a unit index. *)
Definition unit_name (k : Z) : string :=
  if k =? 0 then "B" else if k =? 1 then "K" else if k =? 2 then "M"
  else if k =? 3 then "G" else "T".

(** What [format_size] returns for a count in the range of a float. *)
Definition size_text (b : Z) : string :=
  one_decimal (rne (10 * round53 b) (1024 ^ unit_index b)) +:+ unit_name (unit_index b).

(** ** The report *)

Section report_vocabulary.
Variable colored : string → string → string.

(** A heading, when the list is not empty, and one line for each name. *)
Definition directory_block (heading color : string) (dirs : list string) : list string :=
  if nonempty dirs then heading :: ((fun d => "  " +:+ colored d color) <$> dirs)
  else [].

(** The line of a file in the listing, for a size in the range of a float. *)
Definition file_line (indent color : string) (info : FileInfo) : string :=
  indent +:+ PyStr.ljust 10 (size_text info.2) +:+ " "
  +:+ PyStr.ljust 50 (colored info.1 color).

(** The lines of the extensions of a keyed category, each extension with
    its heading and its files. *)
Definition group_lines (color : string) (group : gmap string (list FileInfo)) : list string :=
  concat ((fun ext => ("  Files with extension " +:+ ext +:+ ":")
                        :: (file_line "    " color <$> group !!! ext))
            <$> sorted_by PyStr.casefold (map_to_list group).*1).

(** The lines of a category: its heading and its files. *)
Definition category_lines (categories : Categories) (c : Category) : list string :=
  (newline +:+ category_name c +:+ " Files:")
  :: match c with
     | InGroup ImageVideo => group_lines "magenta" (image_video categories)
     | InGroup c => group_lines "green" (group c categories)
     | Other => file_line "  " "blue" <$> other categories
     end.
End report_vocabulary.

(** The sizes of the regular files are in the range of a float. *)
Definition sizes_in_range (entries : list DirEntry) : Prop :=
  ∀ entry, entry ∈ entries → is_file entry = true → 0 ≤ st_size entry < 2 ^ 1024.

(** The condition under which the listing of a dictionary is the plain
    one: no list is empty and every size is in the range of a float. *)
Definition group_ok (group : gmap string (list FileInfo)) : Prop :=
  ∀ ext files, group !! ext = Some files →
    files ≠ [] ∧ Forall (fun info => 0 ≤ info.2 < 2 ^ 1024) files.

(** ** Concrete scans *)

(** The directory of the specification's example, with two more files. *)
Definition example_entries : list DirEntry :=
  [ mkEntry "a.JPG" RegularFile 10000 false;
    mkEntry ".git" Directory 4096 true;
    mkEntry "notes.md" RegularFile 500 false;
    mkEntry "run.sh" RegularFile 200 true;
    mkEntry "weird" RegularFile 7 false;
    mkEntry "B.jpg" RegularFile 3 false ].

(** Two files whose names differ by case only, in the two orders. *)
Definition upper_first : list DirEntry :=
  [mkEntry "A.txt" RegularFile 1 false; mkEntry "a.txt" RegularFile 2 false].

Definition lower_first : list DirEntry :=
  [mkEntry "a.txt" RegularFile 2 false; mkEntry "A.txt" RegularFile 1 false].

(** Four scans of one file each, with the sample guesses. *)
Definition scan_mpeg : Categories :=
  categorize_files guess_type_sample "." [mkEntry "clip.mpeg" RegularFile 2048 false].

Definition scan_zip : Categories :=
  categorize_files guess_type_sample "." [mkEntry "backup.zip" RegularFile 4096 false].

Definition scan_data_image : Categories :=
  categorize_files guess_type_sample "data:image/png,x"
    [mkEntry "README" RegularFile 12 false].

Definition scan_data_text : Categories :=
  categorize_files guess_type_sample "data:,x" [mkEntry "README" RegularFile 12 false].

(** A source tree: a TypeScript file, which the Image/Video set takes
    for its [.ts], and files of the other kinds. *)
Definition source_tree_entries : list DirEntry :=
  [ mkEntry "app.js" RegularFile 2048 false;
    mkEntry "src" Directory 4096 true;
    mkEntry "index.ts" RegularFile 1536 false;
    mkEntry "Makefile" RegularFile 300 false;
    mkEntry "README.md" RegularFile 1048575 false;
    mkEntry ".git" Directory 4096 true;
    mkEntry "main.PY" RegularFile 5000000 false ].

(** * Properties *)

(** ** The stable sort *)

Section sorted_by_facts.
Context {A : Type} (key : A → string).

Global Instance key_le_trans : Transitive (key_le key).
Proof. intros x y z. unfold key_le. apply transitivity. Qed.

Lemma insert_by_perm x l : insert_by key x l ≡ₚ x :: l.
Proof.
  induction l as [|y l IH]; simpl; [done|].
  destruct (String.leb (key x) (key y)); [done|].
  rewrite IH. apply Permutation_swap.
Qed.

Lemma sorted_by_perm l : sorted_by key l ≡ₚ l.
Proof.
  induction l as [|x l IH]; simpl; [done|].
  by rewrite insert_by_perm, IH.
Qed.

Lemma insert_by_hd x y l :
  key_le key y x → HdRel (key_le key) y l → HdRel (key_le key) y (insert_by key x l).
Proof.
  intros Hyx Hl. destruct Hl as [|z l Hz]; simpl.
  - by constructor.
  - destruct (String.leb (key x) (key z)); by constructor.
Qed.

Lemma insert_by_sorted x l :
  Sorted (key_le key) l → Sorted (key_le key) (insert_by key x l).
Proof.
  induction 1 as [|y l Hl IH Hy]; simpl.
  - repeat constructor.
  - destruct (String.leb (key x) (key y)) eqn:E.
    + constructor; [by constructor|]. constructor. unfold key_le, String.le.
      by rewrite E.
    + constructor; [done|]. apply insert_by_hd; [|done].
      unfold key_le. destruct (total String.le (key x) (key y)) as [H|H]; [|done].
      unfold String.le in H. by rewrite E in H.
Qed.

Lemma sorted_by_sorted l : Sorted (key_le key) (sorted_by key l).
Proof.
  induction l as [|x l IH]; simpl; [constructor|].
  by apply insert_by_sorted.
Qed.

Lemma sorted_by_length l : length (sorted_by key l) = length l.
Proof. by rewrite sorted_by_perm. Qed.

(** Two enumerations of the same elements sort to the same list when no
    two elements share a key. *)
Lemma sorted_by_perm_eq l1 l2 :
  NoDup (key <$> l1) → l1 ≡ₚ l2 → sorted_by key l1 = sorted_by key l2.
Proof.
  intros Hnd Hp. apply (Sorted_unique_strong (key_le key)).
  - intros x1 x2 H1 H2 H12 H21.
    rewrite sorted_by_perm in H1. rewrite sorted_by_perm, <-Hp in H2.
    assert (key x1 = key x2) as Hk by (by apply (anti_symm String.le)).
    clear -Hnd H1 H2 Hk. induction l1 as [|y l IH]; [by inv H1|].
    rewrite fmap_cons in Hnd. apply NoDup_cons in Hnd as [Hy Hnd].
    inv H1; inv H2; auto.
    + exfalso. apply Hy. rewrite Hk. by apply list_elem_of_fmap_2.
    + exfalso. apply Hy. rewrite <-Hk. by apply list_elem_of_fmap_2.
  - apply sorted_by_sorted.
  - apply sorted_by_sorted.
  - by rewrite !sorted_by_perm.
Qed.

(** A sorted list is left as it is. *)
Lemma insert_by_sorted_id x l :
  Sorted (key_le key) (x :: l) → insert_by key x l = x :: l.
Proof.
  intros H. apply Sorted_inv in H as [_ H]. destruct H as [|y l H]; simpl; [done|].
  unfold key_le, String.le in H. by destruct (String.leb (key x) (key y)).
Qed.

Lemma sorted_by_sorted_id l : Sorted (key_le key) l → sorted_by key l = l.
Proof.
  induction l as [|x l IH]; simpl; [done|]. intros H.
  rewrite IH by (by apply Sorted_inv in H as [? _]).
  by apply insert_by_sorted_id.
Qed.
End sorted_by_facts.

(** ** The directory lister *)

Lemma list_directories_loop entries hidden visible :
  foldl (fun '(hidden_dirs, visible_dirs) entry =>
           if is_dir entry then
             if PyStr.startswith (name entry) "."
             then (hidden_dirs ++ [name entry], visible_dirs)
             else (hidden_dirs, visible_dirs ++ [name entry])
           else (hidden_dirs, visible_dirs))
        (hidden, visible) entries
  = (hidden ++ filter is_hidden (dir_names entries),
     visible ++ filter (fun n => ¬ is_hidden n) (dir_names entries)).
Proof.
  revert hidden visible. unfold dir_names.
  induction entries as [|e entries IH]; intros hidden visible; simpl.
  { by rewrite !app_nil_r. }
  destruct (is_dir e) eqn:Hd.
  - rewrite filter_cons_True by (rewrite Hd; simpl; tauto). rewrite fmap_cons.
    destruct (PyStr.startswith (name e) ".") eqn:Hs; rewrite IH.
    + rewrite filter_cons_True by done.
      rewrite filter_cons_False by (intros H; by apply H).
      by rewrite <-app_assoc.
    + rewrite filter_cons_False by (unfold is_hidden; congruence).
      rewrite filter_cons_True by (unfold is_hidden; congruence).
      by rewrite <-app_assoc.
  - rewrite filter_cons_False by (rewrite Hd; simpl; tauto). apply IH.
Qed.

Lemma list_directories_eq entries :
  list_directories entries
  = (sorted_by PyStr.casefold (filter is_hidden (dir_names entries)),
     sorted_by PyStr.casefold (filter (fun n => ¬ is_hidden n) (dir_names entries))).
Proof. unfold list_directories. by rewrite list_directories_loop. Qed.

Lemma filter_split_perm {A} (P : A → Prop) `{!∀ x, Decision (P x)} (l : list A) :
  filter P l ++ filter (fun x => ¬ P x) l ≡ₚ l.
Proof.
  induction l as [|x l IH]; [done|].
  destruct (decide (P x)).
  - rewrite filter_cons_True, filter_cons_False by auto. simpl. by rewrite IH.
  - rewrite filter_cons_False, filter_cons_True by auto.
    by rewrite <-Permutation_middle, IH.
Qed.



(** ** The categories record *)

Lemma group_set_group c g categories : group c (set_group c g categories) = g.
Proof. by destruct c. Qed.

Lemma group_set_group_ne c c' g categories :
  c ≠ c' → group c' (set_group c g categories) = group c' categories.
Proof. by destruct c, c'. Qed.

Lemma other_set_group c g categories :
  other (set_group c g categories) = other categories.
Proof. by destruct c. Qed.

Lemma group_append_other c file_info categories :
  group c (append_other file_info categories) = group c categories.
Proof. by destruct c. Qed.

Lemma Categories_eq (a b : Categories) :
  (∀ c, group c a = group c b) → other a = other b → a = b.
Proof.
  intros Hg Ho. destruct a, b.
  pose proof (Hg ImageVideo) as H1. pose proof (Hg Document) as H2.
  pose proof (Hg Executable) as H3. pose proof (Hg Programming) as H4.
  simpl in *. congruence.
Qed.

Lemma lookup_dict_append ext ext' file_info (d : gmap string (list FileInfo)) :
  dict_append ext file_info d !! ext'
  = if decide (ext = ext') then Some (default [] (d !! ext) ++ [file_info])
    else d !! ext'.
Proof.
  unfold dict_append. rewrite lookup_insert, lookup_total_alt.
  by destruct (decide (ext = ext')).
Qed.

(** The closing loop over a group sorts each of its lists and leaves the
    keys as they are. *)
Lemma lookup_foldl_alter {V} (f : V → V) (ks : list string) (g : gmap string V) i :
  NoDup ks →
  foldl (fun g k => alter f k g) g ks !! i
  = if decide (i ∈ ks) then f <$> g !! i else g !! i.
Proof.
  intros Hnd. revert g. induction Hnd as [|k ks Hk Hnd IH]; intros g; simpl.
  { done. }
  rewrite IH. destruct (decide (i = k)) as [->|Hne].
  - rewrite decide_False by done. rewrite decide_True by (by left).
    by rewrite lookup_alter_eq.
  - rewrite lookup_alter_ne by done.
    destruct (decide (i ∈ ks)).
    + by rewrite decide_True by (by right).
    + rewrite decide_False; [done|]. by intros [?|?]%elem_of_cons.
Qed.

Lemma sort_group_fmap (g : gmap string (list FileInfo)) :
  sort_group g = sorted_by name_key <$> g.
Proof.
  apply map_eq. intros i. unfold sort_group.
  rewrite lookup_foldl_alter, lookup_fmap.
  - destruct (decide _) as [|Hi]; [done|].
    destruct (g !! i) as [x|] eqn:E; [|done].
    exfalso. apply Hi. rewrite sorted_by_perm.
    apply list_elem_of_fmap. exists (i, x). split; [done|].
    by apply elem_of_map_to_list.
  - rewrite sorted_by_perm. apply NoDup_fst_map_to_list.
Qed.

(** ** The classification of one file *)

Lemma startswith_app (s p q : string) :
  PyStr.startswith s (p +:+ q) = true → PyStr.startswith s p = true.
Proof.
  unfold PyStr.startswith. revert s.
  induction p as [|a p IH]; intros s; simpl.
  { by destruct s. }
  destruct s as [|b s]; simpl; [done|].
  destruct (ascii_dec a b); [apply IH|done].
Qed.

Lemma startswith_head (s p : string) a :
  PyStr.startswith s (String a p) = true → ∃ s', s = String a s'.
Proof.
  unfold PyStr.startswith. destruct s as [|b s]; simpl; [done|].
  destruct (ascii_dec a b) as [->|]; [eauto|done].
Qed.

Lemma startswith_empty p : p ≠ EmptyString → PyStr.startswith EmptyString p = false.
Proof. by destruct p. Qed.

Lemma startswith_x_executable mime_type :
  PyStr.startswith mime_type "application/x-executable" = true →
  PyStr.startswith mime_type "application" = true.
Proof. apply (startswith_app mime_type "application" "/x-executable"). Qed.

Section classification.
Variable guess_type : string → option string.

Lemma categorize_entry_not_file directory categories entry :
  is_file entry = false → categorize_entry guess_type directory categories entry = categories.
Proof. unfold categorize_entry. by intros ->. Qed.

(** The loop body appends the file to the category [classify] names. *)
Lemma categorize_entry_classify directory categories entry :
  is_file entry = true →
  categorize_entry guess_type directory categories entry
  = add_file (classify guess_type directory entry) (extension (name entry))
      (file_info entry) categories.
Proof.
  intros Hf. unfold categorize_entry, classify, file_info. rewrite Hf.
  cbv zeta.
  destruct (bool_decide (_ ∈ image_video_extensions)); [done|].
  destruct (bool_decide (_ ∈ document_extensions)); [done|].
  destruct (bool_decide (_ ∈ executable_extensions) || access_x entry); [done|].
  destruct (bool_decide (_ ∈ programming_extensions)); [done|].
  unfold mime_category.
  destruct (guess_type _) as [mime_type|]; [|done].
  destruct mime_type as [|a mime_type]; [done|].
  set (m := String a mime_type).
  change (PyStr.truthy m) with true. cbv iota.
  destruct (PyStr.startswith m "image" || PyStr.startswith m "video"); [done|].
  destruct (PyStr.startswith m "application") eqn:Happ; [done|].
  rewrite orb_false_l.
  destruct (PyStr.startswith m "text"); [done|].
  destruct (PyStr.startswith m "application/x-executable") eqn:Hx; [|done].
  apply startswith_x_executable in Hx. congruence.
Qed.
End classification.

(** ** What the scan builds *)

Lemma default_opt_list {A} (l : list A) : default [] (opt_list l) = l.
Proof. unfold opt_list. by destruct l. Qed.

Lemma opt_list_snoc {A} (l : list A) x : opt_list (l ++ [x]) = Some (l ++ [x]).
Proof. unfold opt_list. by destruct l. Qed.

Lemma fmap_opt_list {A B} (f : list A → list B) (l : list A) :
  (∀ l, f l = [] ↔ l = []) → f <$> opt_list l = opt_list (f l).
Proof.
  intros Hf. unfold opt_list. destruct (decide (l = [])) as [->|Hl].
  - rewrite decide_True; [done|]. by apply Hf.
  - rewrite decide_False; [done|]. by rewrite Hf.
Qed.

Lemma sorted_by_nil_iff {A} (key : A → string) (l : list A) :
  sorted_by key l = [] ↔ l = [].
Proof.
  split; [|by intros ->]. intros H.
  apply Permutation_nil. by rewrite <-(sorted_by_perm key l), H.
Qed.

Section scan.
Variable guess_type : string → option string.
Variable directory : string.

Local Abbreviation bucket_files' := (bucket_files guess_type directory).
Local Abbreviation in_bucket' := (in_bucket guess_type directory).
Local Abbreviation classify' := (classify guess_type directory).
Local Abbreviation scan_files' := (scan_files guess_type directory).
Local Abbreviation categorize_files' := (categorize_files guess_type directory).

Lemma bucket_files_app c ext l1 l2 :
  bucket_files' c ext (l1 ++ l2) = bucket_files' c ext l1 ++ bucket_files' c ext l2.
Proof. unfold bucket_files. by rewrite filter_app, fmap_app. Qed.

Lemma bucket_files_one_in c ext entry :
  in_bucket' c ext entry → bucket_files' c ext [entry] = [file_info entry].
Proof.
  intros H. unfold bucket_files. by rewrite filter_cons_True.
Qed.

Lemma bucket_files_one_out c ext entry :
  ¬ in_bucket' c ext entry → bucket_files' c ext [entry] = [].
Proof.
  intros H. unfold bucket_files. by rewrite filter_cons_False.
Qed.

Lemma scan_files_snoc entries entry :
  scan_files' (entries ++ [entry])
  = categorize_entry guess_type directory (scan_files' entries) entry.
Proof. unfold scan_files. by rewrite foldl_app. Qed.

(** Before the closing sort, every list holds the files of its bucket in
    the order of the enumeration, and a key exists only for a non-empty
    list. *)
Lemma lookup_scan_files c ext entries :
  group c (scan_files' entries) !! ext
  = opt_list (bucket_files' (InGroup c) ext entries).
Proof.
  induction entries as [|entry entries IH] using rev_ind.
  { by destruct c. }
  rewrite scan_files_snoc, bucket_files_app.
  destruct (is_file entry) eqn:Hf.
  2:{ rewrite categorize_entry_not_file by done.
      rewrite bucket_files_one_out, app_nil_r; [done|].
      intros [? _]. congruence. }
  rewrite categorize_entry_classify by done.
  destruct (classify' entry) as [c'|] eqn:Hc; simpl.
  - unfold append_keyed. destruct (decide (c' = c)) as [->|Hne].
    + rewrite group_set_group, lookup_dict_append.
      destruct (decide (extension (name entry) = ext)) as [<-|Hext].
      * rewrite IH, default_opt_list.
        rewrite bucket_files_one_in by (split_and!; auto).
        by rewrite opt_list_snoc.
      * rewrite IH, bucket_files_one_out, app_nil_r; [done|].
        by intros (_ & _ & [?|?]).
    + rewrite group_set_group_ne by done.
      rewrite IH, bucket_files_one_out, app_nil_r; [done|].
      intros (_ & ? & _). congruence.
  - rewrite group_append_other.
    rewrite IH, bucket_files_one_out, app_nil_r; [done|].
    intros (_ & ? & _). congruence.
Qed.

Lemma other_scan_files ext entries :
  other (scan_files' entries) = bucket_files' Other ext entries.
Proof.
  induction entries as [|entry entries IH] using rev_ind; [done|].
  rewrite scan_files_snoc, bucket_files_app.
  destruct (is_file entry) eqn:Hf.
  2:{ rewrite categorize_entry_not_file by done.
      rewrite bucket_files_one_out, app_nil_r; [done|].
      intros [? _]. congruence. }
  rewrite categorize_entry_classify by done.
  destruct (classify' entry) as [c'|] eqn:Hc; simpl.
  - unfold append_keyed. rewrite other_set_group.
    rewrite IH, bucket_files_one_out, app_nil_r; [done|].
    intros (_ & ? & _). congruence.
  - rewrite IH, bucket_files_one_in by (split_and!; auto). done.
Qed.

Lemma lookup_categorize_files c ext entries :
  group c (categorize_files' entries) !! ext
  = opt_list (sorted_by name_key (bucket_files' (InGroup c) ext entries)).
Proof.
  rewrite <-fmap_opt_list by apply sorted_by_nil_iff.
  rewrite <-lookup_scan_files, <-lookup_fmap, <-sort_group_fmap.
  by destruct c.
Qed.

(** After the closing sort, every list is the stable sort of the files
    of its bucket. *)
Lemma bucket_categorize_files c ext entries :
  bucket (categorize_files' entries) c ext
  = sorted_by name_key (bucket_files' c ext entries).
Proof.
  destruct c as [c|]; simpl.
  - rewrite lookup_total_alt, lookup_categorize_files. apply default_opt_list.
  - by rewrite <-other_scan_files.
Qed.
End scan.

(** ** The categorizer *)

Section categorizer_facts.
Variable guess_type : string → option string.


(** C3. A MIME type that starts with [application/x-executable] starts
    with [application], which the fallback tests first; so whenever the
    fallback is reached (the extension is in none of the four sets and
    the file has no execute permission) the loop body leaves the
    Executable category as it was: the file goes to Image/Video, to
    Document or to Other. *)
Theorem mime_executable_branch_unreachable :
  (∀ mime_type,
     PyStr.startswith mime_type "application/x-executable" = true →
     PyStr.startswith mime_type "application" = true)
  ∧ (∀ directory categories entry,
       is_file entry = true →
       extension (name entry) ∉ image_video_extensions →
       extension (name entry) ∉ document_extensions →
       extension (name entry) ∉ executable_extensions →
       access_x entry = false →
       extension (name entry) ∉ programming_extensions →
       let result := categorize_entry guess_type directory categories entry in
       executable result = executable categories
       ∧ classify guess_type directory entry ≠ InGroup Executable
       ∧ (match guess_type (entry_path directory entry) with
          | Some mime_type =>
              PyStr.startswith mime_type "application/x-executable" = true →
              result = append_keyed Document (extension (name entry))
                         (file_info entry) categories
          | None => True
          end)).
Proof.
  split; [apply startswith_x_executable|].
  intros directory categories entry Hf H1 H2 H3 H4 H5 result.
  assert (classify guess_type directory entry
          = mime_category (guess_type (entry_path directory entry))) as Hc.
  { unfold classify. rewrite !bool_decide_eq_false_2 by done. by rewrite H4. }
  assert (result = add_file (classify guess_type directory entry)
                     (extension (name entry)) (file_info entry) categories)
    as -> by (by apply categorize_entry_classify).
  rewrite Hc. unfold mime_category.
  destruct (guess_type _) as [mime_type|]; [|done].
  destruct (PyStr.startswith mime_type "image" || PyStr.startswith mime_type "video")
    eqn:Hiv.
  - split_and!; [done..|]. intros Hx. exfalso.
    apply startswith_head in Hx as [m ->].
    apply orb_true_iff in Hiv as [[? [=]]%startswith_head|[? [=]]%startswith_head].
  - destruct (PyStr.startswith mime_type "application" || PyStr.startswith mime_type "text")
      eqn:Hat.
    + by split_and!.
    + split_and!; [done..|]. intros Hx%startswith_x_executable.
      rewrite Hx in Hat. done.
Qed.
End categorizer_facts.

(** ** Counting occurrences *)

Lemma occurrences_perm {A} `{EqDecision A} (x : A) l1 l2 :
  l1 ≡ₚ l2 → occurrences x l1 = occurrences x l2.
Proof. intros Hp. unfold occurrences. by rewrite Hp. Qed.

Lemma occurrences_cons_eq {A} `{EqDecision A} (x : A) l :
  occurrences x (x :: l) = S (occurrences x l).
Proof. unfold occurrences. by rewrite filter_cons_True. Qed.

Lemma occurrences_cons_ne {A} `{EqDecision A} (x y : A) l :
  x ≠ y → occurrences x (y :: l) = occurrences x l.
Proof. intros. unfold occurrences. by rewrite filter_cons_False. Qed.

Lemma occurrences_absent {A} `{EqDecision A} (x : A) l :
  x ∉ l → occurrences x l = 0%nat.
Proof.
  intros Hx. induction l as [|y l IH]; [done|].
  apply not_elem_of_cons in Hx as [Hne Hx].
  rewrite occurrences_cons_ne by done. auto.
Qed.

(** In an enumeration without repeated names, the pair of an entry occurs
    once among the pairs of the selected entries if the entry is selected,
    and not at all otherwise. *)
Lemma occurrences_file_info (P : DirEntry → Prop) `{!∀ e, Decision (P e)}
    (entries : list DirEntry) (entry : DirEntry) :
  NoDup (name <$> entries) → entry ∈ entries →
  occurrences (file_info entry) (file_info <$> filter P entries)
  = if decide (P entry) then 1%nat else 0%nat.
Proof.
  intros Hnd Hin. induction entries as [|e entries IH]; [by inv Hin|].
  rewrite fmap_cons in Hnd. apply NoDup_cons in Hnd as [Hfresh Hnd].
  assert (∀ e', e' ∈ entries → name e' = name e → False) as Hother.
  { intros e' He' Hn. apply Hfresh. rewrite <-Hn. by apply list_elem_of_fmap_2. }
  apply elem_of_cons in Hin as [->|Hin].
  - assert (file_info e ∉ file_info <$> filter P entries) as Hout.
    { intros (e' & [= Hn _] & [_ He']%list_elem_of_filter)%list_elem_of_fmap.
      eauto. }
    destruct (decide (P e)).
    + rewrite filter_cons_True, fmap_cons by done.
      by rewrite occurrences_cons_eq, (occurrences_absent _ _ Hout).
    + rewrite filter_cons_False by done. by apply occurrences_absent.
  - assert (file_info entry ≠ file_info e) as Hne.
    { intros [= Hn _]. eauto. }
    destruct (decide (P e)).
    + rewrite filter_cons_True, fmap_cons by done.
      rewrite occurrences_cons_ne by done. by apply IH.
    + rewrite filter_cons_False by done. by apply IH.
Qed.

Section categorize_files_facts.
Variable guess_type : string → option string.
Variable directory : string.

Local Abbreviation classify' := (classify guess_type directory).
Local Abbreviation categorize_files' := (categorize_files guess_type directory).



Lemma bucket_files_perm c ext l1 l2 :
  l1 ≡ₚ l2 →
  bucket_files guess_type directory c ext l1 ≡ₚ bucket_files guess_type directory c ext l2.
Proof. intros Hp. unfold bucket_files. by rewrite Hp. Qed.

Lemma bucket_files_keys_NoDup c ext entries :
  NoDup (PyStr.casefold <$> (name <$> filter (fun e => is_file e = true) entries)) →
  NoDup (name_key <$> bucket_files guess_type directory c ext entries).
Proof.
  intros Hnd. unfold bucket_files.
  rewrite <-list_fmap_compose.
  assert (name_key ∘ file_info = PyStr.casefold ∘ name) as -> by done.
  rewrite list_fmap_compose.
  eapply sublist_NoDup; [exact Hnd|].
  do 2 apply fmap_sublist.
  rewrite <-(list_filter_filter_l _ (fun e => is_file e = true))
    by (by intros ? [? _]).
  apply sublist_filter.
Qed.

End categorize_files_facts.

(** ** Names that start with a dot *)

Lemma rfind_from_absent c s i acc :
  PyStr.contains c s = false → PyStr.rfind_from c s i acc = acc.
Proof.
  revert i acc. induction s as [|a s IH]; intros i acc; simpl; [done|].
  intros [Ha Hs]%orb_false_iff. rewrite Ha. by apply IH.
Qed.

Lemma rfind_from_lower c s i acc :
  -1 ≤ acc → 0 ≤ i → -1 ≤ PyStr.rfind_from c s i acc.
Proof.
  revert i acc. induction s as [|a s IH]; intros i acc Hacc Hi; simpl; [done|].
  apply IH; [|lia]. destruct (Ascii.eqb a c); lia.
Qed.

Lemma splitext_dot_file s :
  PyStr.contains "." s = false →
  PyStr.splitext (String "." s) = (String "." s, EmptyString).
Proof.
  intros Hs. unfold PyStr.splitext, PyStr.rfind. simpl PyStr.rfind_from.
  rewrite (rfind_from_absent "." s) by done.
  pose proof (rfind_from_lower "/" s (0 + 1) (-1) ltac:(lia) ltac:(lia)) as Hsep.
  set (sepIndex := PyStr.rfind_from "/" s (0 + 1) (-1)) in *.
  replace (Z.to_nat (0 - (sepIndex + 1))) with 0%nat by lia.
  simpl. by rewrite andb_false_r.
Qed.

Lemma sentinel_in_no_set c : "(no extension)" ∉ extension_set c.
Proof. destruct c; apply (bool_decide_unpack _); by vm_compute. Qed.

Section dot_files.
Variable guess_type : string → option string.

(** C9. A name made of a dot followed by characters other than a dot has
    an empty extension for [splitext], so its key is the
    ["(no extension)"] sentinel; as a regular file it goes to Executable
    when it has the execute permission and otherwise where the MIME
    guess says (Image/Video, Document or Other).  No test looks at the
    leading dot: two regular files with the same extension, the same
    execute permission and the same MIME guess are appended to the same
    category under the same key. *)
Theorem dot_file_no_extension (s : string) :
  PyStr.contains "." s = false →
  let file := String "." s in
  (PyStr.splitext file).2 = EmptyString
  ∧ extension file = "(no extension)"
  ∧ (∀ directory categories entry,
       is_file entry = true → name entry = file →
       categorize_entry guess_type directory categories entry
       = if access_x entry
         then append_keyed Executable "(no extension)" (file_info entry) categories
         else add_file (mime_category (guess_type (entry_path directory entry)))
                "(no extension)" (file_info entry) categories)
  ∧ (∀ directory categories entry entry',
       is_file entry = true → is_file entry' = true → name entry = file →
       extension (name entry') = extension (name entry) →
       access_x entry' = access_x entry →
       guess_type (entry_path directory entry')
       = guess_type (entry_path directory entry) →
       ∃ c, categorize_entry guess_type directory categories entry
            = add_file c "(no extension)" (file_info entry) categories
          ∧ categorize_entry guess_type directory categories entry'
            = add_file c "(no extension)" (file_info entry') categories).
Proof.
  intros Hs file.
  assert (extension file = "(no extension)") as Hext.
  { unfold extension, file. by rewrite splitext_dot_file. }
  split_and!.
  - unfold file. by rewrite splitext_dot_file.
  - done.
  - intros directory categories entry Hf Hn.
    rewrite categorize_entry_classify by done.
    unfold classify. rewrite Hn, Hext.
    rewrite (bool_decide_eq_false_2 _ (sentinel_in_no_set ImageVideo)).
    rewrite (bool_decide_eq_false_2 _ (sentinel_in_no_set Document)).
    rewrite (bool_decide_eq_false_2 _ (sentinel_in_no_set Executable)).
    rewrite (bool_decide_eq_false_2 _ (sentinel_in_no_set Programming)).
    by destruct (access_x entry).
  - intros directory categories entry entry' Hf Hf' Hn He Hx Hg.
    exists (classify guess_type directory entry).
    rewrite !categorize_entry_classify by done.
    rewrite He, Hn, Hext. split; [done|].
    f_equal. unfold classify. by rewrite He, Hx, Hg.
Qed.
End dot_files.

(** ** Keys that come from the MIME guess *)

(** C10. When the MIME guess sends a regular file to Image/Video or to
    Document, the loop body appends it under the file's own extension,
    which is outside the extension set of that category.  So the keys of
    these two categories are not confined to their sets: with the sample
    guesses, [".mpeg"] becomes a key of Image/Video and [".zip"] a key of
    Document, and in a directory whose path reads as a [data:] URL the
    ["(no extension)"] sentinel becomes a key of either. *)
Theorem mime_fallback_keys_outside_sets :
  (∀ guess_type directory categories entry c,
     is_file entry = true →
     extension (name entry) ∉ image_video_extensions →
     extension (name entry) ∉ document_extensions →
     extension (name entry) ∉ executable_extensions →
     access_x entry = false →
     extension (name entry) ∉ programming_extensions →
     mime_category (guess_type (entry_path directory entry)) = InGroup c →
     (c = ImageVideo ∨ c = Document)
     ∧ (extension (name entry) ∉ extension_set c)
     ∧ categorize_entry guess_type directory categories entry
       = append_keyed c (extension (name entry)) (file_info entry) categories
     ∧ file_info entry
       ∈ bucket (categorize_entry guess_type directory categories entry)
           (InGroup c) (extension (name entry)))
  ∧ (image_video scan_mpeg !! ".mpeg" = Some [("clip.mpeg", 2048)]
     ∧ ".mpeg" ∉ image_video_extensions)
  ∧ (document scan_zip !! ".zip" = Some [("backup.zip", 4096)]
     ∧ ".zip" ∉ document_extensions)
  ∧ (image_video scan_data_image !! "(no extension)" = Some [("README", 12)]
     ∧ "(no extension)" ∉ image_video_extensions)
  ∧ (document scan_data_text !! "(no extension)" = Some [("README", 12)]
     ∧ "(no extension)" ∉ document_extensions)
  ∧ ¬ (∀ guess_type directory entries c,
         dom (group c (categorize_files guess_type directory entries))
         ⊆ extension_set c).
Proof.
  split_and!.
  - intros guess_type directory categories entry c Hf H1 H2 H3 H4 H5 Hm.
    assert (classify guess_type directory entry = InGroup c) as Hc.
    { unfold classify. rewrite !bool_decide_eq_false_2 by done. by rewrite H4. }
    assert (c = ImageVideo ∨ c = Document) as Hcases.
    { unfold mime_category in Hm. destruct (guess_type _); [|done].
      destruct (_ || _); [left; congruence|].
      destruct (_ || _); [right; congruence|discriminate]. }
    split_and!.
    + done.
    + by destruct Hcases as [-> | ->].
    + by rewrite categorize_entry_classify, Hc.
    + rewrite categorize_entry_classify, Hc by done. simpl. unfold append_keyed.
      rewrite group_set_group. unfold dict_append.
      rewrite lookup_total_insert_eq. apply elem_of_app. right. by left.
  - by vm_compute.
  - apply (bool_decide_unpack _). by vm_compute.
  - by vm_compute.
  - apply (bool_decide_unpack _). by vm_compute.
  - by vm_compute.
  - apply (sentinel_in_no_set ImageVideo).
  - by vm_compute.
  - apply (sentinel_in_no_set Document).
  - intros H.
    specialize (H guess_type_sample "." [mkEntry "clip.mpeg" RegularFile 2048 false]
                  ImageVideo ".mpeg").
    assert (".mpeg" ∉ image_video_extensions) as Hout.
    { apply (bool_decide_unpack _). by vm_compute. }
    apply Hout, H. apply elem_of_dom. eexists. by vm_compute.
Qed.

(** ** Concrete scans *)

(** The example of the specification: one hidden directory, [a.JPG]
    under [".jpg"] of Image/Video, [notes.md] under [".md"] of Document,
    the executable [run.sh] under [".sh"] of Executable, and [weird],
    without extension, execute permission or MIME guess, in Other. *)
Example specification_example :
  let categories := categorize_files guess_type_sample "." example_entries in
  list_directories example_entries = ([".git"], [])
  ∧ image_video categories !! ".jpg" = Some [("a.JPG", 10000); ("B.jpg", 3)]
  ∧ document categories !! ".md" = Some [("notes.md", 500)]
  ∧ executable categories !! ".sh" = Some [("run.sh", 200)]
  ∧ programming categories = ∅
  ∧ other categories = [("weird", 7)].
Proof. by vm_compute. Qed.


Lemma mime_executable_branch_unreachable_witness :
  let guess := fun _ : string => Some "application/x-executable" in
  let entry := mkEntry "tool.elf" RegularFile 9000 false in
  PyStr.startswith "application/x-executable" "application" = true
  ∧ categorize_entry guess "." empty_categories entry
    = append_keyed Document ".elf" ("tool.elf", 9000) empty_categories.
Proof.
  intros guess entry. split.
  - apply (proj1 (mime_executable_branch_unreachable guess)). reflexivity.
  - assert (∀ c, extension (name entry) ∉ extension_set c) as Hout.
    { intros c. apply (bool_decide_unpack _). by destruct c; vm_compute. }
    apply (proj2 (mime_executable_branch_unreachable guess) "." empty_categories entry
             eq_refl (Hout ImageVideo) (Hout Document) (Hout Executable) eq_refl
             (Hout Programming)).
    reflexivity.
Defined.





Lemma dot_file_no_extension_witness :
  PyStr.contains "." "bashrc" = false
  ∧ extension ".bashrc" = "(no extension)"
  ∧ categorize_entry guess_type_sample "." empty_categories
      (mkEntry ".bashrc" RegularFile 3771 false)
    = append_other (".bashrc", 3771) empty_categories.
Proof.
  split; [reflexivity|]. split.
  - apply (dot_file_no_extension guess_type_sample "bashrc" eq_refl).
  - apply (proj1 (proj2 (proj2 (dot_file_no_extension guess_type_sample "bashrc" eq_refl)))
             "." empty_categories (mkEntry ".bashrc" RegularFile 3771 false)
             eq_refl eq_refl).
Defined.

Lemma mime_fallback_keys_outside_sets_witness :
  let entry := mkEntry "clip.mpeg" RegularFile 2048 false in
  is_file entry = true
  ∧ mime_category (guess_type_sample (entry_path "." entry)) = InGroup ImageVideo
  ∧ categorize_entry guess_type_sample "." empty_categories entry
    = append_keyed ImageVideo ".mpeg" ("clip.mpeg", 2048) empty_categories.
Proof.
  intros entry.
  assert (∀ c, extension (name entry) ∉ extension_set c) as Hout.
  { intros c. apply (bool_decide_unpack _). by destruct c; vm_compute. }
  split_and!; [reflexivity..|].
  apply (proj1 mime_fallback_keys_outside_sets guess_type_sample "." empty_categories
           entry ImageVideo eq_refl (Hout ImageVideo) (Hout Document) (Hout Executable)
           eq_refl (Hout Programming) eq_refl).
Defined.

(** ** Rounding *)

Lemma rne_exact n d : 0 < d → rne (n * d) d = n.
Proof.
  intros Hd. unfold rne. rewrite Z.div_mul, Z.mod_mul by lia.
  destruct (Z.ltb_spec (2 * 0) d); [done|lia].
Qed.

Lemma rne_one n : rne n 1 = n.
Proof. rewrite <-(Z.mul_1_r n) at 1. by apply rne_exact. Qed.

Lemma rne_scale c n d : 0 < c → 0 < d → rne (c * n) (c * d) = rne n d.
Proof.
  intros Hc Hd. unfold rne.
  rewrite Z.div_mul_cancel_l, Z.mul_mod_distr_l by lia.
  pose proof (Z.mod_pos_bound n d Hd) as Hr.
  destruct (Z.ltb_spec (2 * (n mod d)) d), (Z.ltb_spec (2 * (c * (n mod d))) (c * d));
    try nia; try reflexivity.
  destruct (Z.ltb_spec d (2 * (n mod d))), (Z.ltb_spec (c * d) (2 * (c * (n mod d))));
    try nia; reflexivity.
Qed.

Lemma rne_bounds n d : 0 < d → n / d ≤ rne n d ≤ n / d + 1.
Proof.
  intros Hd. unfold rne.
  destruct (_ <? _); [lia|]. destruct (_ <? _); [lia|]. destruct (Z.even _); lia.
Qed.

Lemma rne_ge m n d : 0 < d → m * d ≤ n → m ≤ rne n d.
Proof.
  intros Hd H. pose proof (rne_bounds n d Hd).
  assert (m ≤ n / d) by (apply Z.div_le_lower_bound; lia). lia.
Qed.

Lemma rne_le m n d : 0 < d → n ≤ m * d → rne n d ≤ m.
Proof.
  intros Hd H. unfold rne.
  pose proof (Z.mod_pos_bound n d Hd) as Hr.
  pose proof (Z.div_mod n d ltac:(lia)) as Hdm.
  destruct (Z.ltb_spec (2 * (n mod d)) d).
  { apply Z.div_le_upper_bound; lia. }
  assert (n / d < m) by nia.
  destruct (_ <? _); [lia|]. destruct (Z.even _); lia.
Qed.


Lemma pow2_pos x : 0 < 2 ^ x ∨ (x < 0 ∧ 2 ^ x = 0).
Proof.
  destruct (Z.le_gt_cases 0 x).
  - left. by apply Z.pow_pos_nonneg.
  - right. split; [done|]. by apply Z.pow_neg_r.
Qed.

Lemma pow2_split a b : 0 ≤ a → 0 ≤ b → 2 ^ (a + b) = 2 ^ a * 2 ^ b.
Proof. intros. by apply Z.pow_add_r. Qed.

Lemma ltb_mul_r p n m : 0 < p → (n * p <? m * p) = (n <? m).
Proof.
  intros Hp. pose proof (Z.mul_lt_mono_pos_r p n m Hp).
  destruct (Z.ltb_spec (n * p) (m * p)), (Z.ltb_spec n m); try reflexivity; lia.
Qed.

Lemma float_tenths_ratio f R t :
  0 ≤ t → is_ratio f R t → float_tenths f = rne (10 * R) (2 ^ t).
Proof.
  intros Ht (Hm & Hpos & Hneg). unfold float_tenths.
  destruct f as [m x]; simpl in *. rewrite Z.abs_eq by done.
  assert (0 < 2 ^ t) by (by apply Z.pow_pos_nonneg).
  destruct (Z.leb_spec 0 x) as [Hx|Hx].
  - rewrite Hpos, pow2_split by lia.
    replace (10 * (m * (2 ^ x * 2 ^ t))) with (10 * m * 2 ^ x * 2 ^ t) by ring.
    by rewrite rne_exact.
  - destruct (Z.le_gt_cases 0 (x + t)) as [Hxt|Hxt].
    + rewrite Hpos by done.
      replace (2 ^ t) with (2 ^ (x + t) * 2 ^ (- x))
        by (rewrite <-Z.pow_add_r by lia; f_equal; lia).
      replace (10 * (m * 2 ^ (x + t))) with (2 ^ (x + t) * (10 * m)) by ring.
      rewrite rne_scale; [done| |]; apply Z.pow_pos_nonneg; lia.
    + rewrite Hneg by done.
      replace (2 ^ (- x)) with (2 ^ (- (x + t)) * 2 ^ t)
        by (rewrite <-Z.pow_add_r by lia; f_equal; lia).
      replace (10 * (R * 2 ^ (- (x + t)))) with (2 ^ (- (x + t)) * (10 * R)) by ring.
      rewrite rne_scale; [done| |]; apply Z.pow_pos_nonneg; lia.
Qed.

Lemma float_lt_1024_ratio f R t :
  0 ≤ t → is_ratio f R t → float_lt_1024 f = (R <? 1024 * 2 ^ t).
Proof.
  intros Ht (Hm & Hpos & Hneg). unfold float_lt_1024.
  destruct f as [m x]; simpl in *.
  assert (0 < 2 ^ t) by (by apply Z.pow_pos_nonneg).
  destruct (Z.leb_spec 0 x) as [Hx|Hx].
  - rewrite Hpos, pow2_split by lia.
    replace (m * (2 ^ x * 2 ^ t)) with (m * 2 ^ x * 2 ^ t) by ring.
    by rewrite ltb_mul_r.
  - assert (0 < 2 ^ (- x)) by (apply Z.pow_pos_nonneg; lia).
    destruct (Z.le_gt_cases 0 (x + t)) as [Hxt|Hxt].
    + rewrite Hpos by done.
      replace (2 ^ t) with (2 ^ (x + t) * 2 ^ (- x))
        by (rewrite <-Z.pow_add_r by lia; f_equal; lia).
      assert (0 < 2 ^ (x + t)) by (by apply Z.pow_pos_nonneg).
      replace (1024 * (2 ^ (x + t) * 2 ^ (- x))) with (1024 * 2 ^ (- x) * 2 ^ (x + t))
        by ring.
      by rewrite ltb_mul_r.
    + rewrite Hneg by done.
      replace (2 ^ (- x)) with (2 ^ (- (x + t)) * 2 ^ t)
        by (rewrite <-Z.pow_add_r by lia; f_equal; lia).
      assert (0 < 2 ^ (- (x + t))) by (apply Z.pow_pos_nonneg; lia).
      replace (1024 * (2 ^ (- (x + t)) * 2 ^ t)) with (1024 * 2 ^ t * 2 ^ (- (x + t)))
        by ring.
      by rewrite ltb_mul_r.
Qed.

Lemma float_div_1024_ratio f R t :
  is_ratio f R t → is_ratio (float_div_1024 f) R (t + 10).
Proof.
  intros (Hm & Hpos & Hneg). unfold is_ratio, float_div_1024. simpl.
  replace (expo f - 10 + (t + 10)) with (expo f + t) by lia. done.
Qed.


Lemma scaled_le_pow2 n c :
  0 < n → 0 ≤ c → scaled_le (Z.log2 n - c) (2 ^ c) n = true.
Proof.
  intros Hn Hc. unfold scaled_le.
  pose proof (Z.log2_spec n Hn) as [Hlo _].
  pose proof (Z.log2_nonneg n) as HL.
  destruct (Z.leb_spec 0 (Z.log2 n - c)).
  - rewrite <-Z.pow_add_r by lia.
    replace (c + (Z.log2 n - c)) with (Z.log2 n) by lia. by apply Z.leb_le.
  - apply Z.leb_le.
    replace (2 ^ c) with (2 ^ Z.log2 n * 2 ^ (- (Z.log2 n - c)))
      by (rewrite <-Z.pow_add_r by lia; f_equal; lia).
    apply Z.mul_le_mono_nonneg_r; [|done]. apply Z.pow_nonneg. lia.
Qed.

(** Rounding [n / 2 ^ c] to a float gives [round53 n / 2 ^ c]. *)
Lemma nearest_pos_pow2 n c :
  0 < n < 2 ^ 1024 → 0 ≤ c → n < 2 ^ 53 ∨ 1 ≤ c →
  ∃ f, nearest_pos n (2 ^ c) = Some f ∧ is_ratio f (round53 n) c.
Proof.
  intros [Hn Hmax] Hc Hsmall. unfold nearest_pos, round53.
  rewrite Z.log2_pow2 by done. rewrite scaled_le_pow2 by done.
  pose proof (Z.log2_spec n Hn) as [Hlo Hhi].
  pose proof (Z.log2_nonneg n) as HL.
  assert (Z.log2 n < 1024) as HL' by (by apply Z.log2_lt_pow2).
  cbv zeta. remember (Z.log2 n) as L eqn:HeqL.
  destruct (Z.ltb_spec n (2 ^ 53)) as [H53|H53].
  - (* the integer has at most 53 bits: nothing is rounded away *)
    assert (L < 53) as HL53 by (subst L; by apply Z.log2_lt_pow2).
    assert (0 < 2 ^ (52 - L)) as Hp by (apply Z.pow_pos_nonneg; lia).
    assert (rne_scaled n (2 ^ c) (L - c - 52) = n * 2 ^ (52 - L)) as ->.
    { unfold rne_scaled. destruct (Z.leb_spec 0 (L - c - 52)).
      - assert (L = 52 ∧ c = 0) as [-> ->] by lia.
        change (2 ^ 0 * 2 ^ (52 - 0 - 52)) with 1. rewrite rne_one.
        change (2 ^ (52 - 52)) with 1. lia.
      - replace (2 ^ (- (L - c - 52))) with (2 ^ (52 - L) * 2 ^ c)
          by (rewrite <-Z.pow_add_r by lia; f_equal; lia).
        rewrite Z.mul_assoc. apply rne_exact. by apply Z.pow_pos_nonneg. }
    assert (n * 2 ^ (52 - L) < 2 ^ 53) as Hm.
    { replace (2 ^ 53) with (2 ^ Z.succ L * 2 ^ (52 - L))
        by (rewrite <-Z.pow_add_r by lia; f_equal; lia).
      by apply Z.mul_lt_mono_pos_r. }
    destruct (Z.eqb_spec (n * 2 ^ (52 - L)) (2 ^ 53)) as [|_]; [lia|].
    destruct (Z.ltb_spec 971 (L - c - 52)); [lia|].
    eexists. split; [done|]. unfold is_ratio. simpl. split_and!.
    + lia.
    + intros ?. assert (L = 52) as -> by lia.
      replace (52 - c - 52 + c) with 0 by lia. change (2 ^ (52 - 52)) with 1.
      change (2 ^ 0) with 1. lia.
    + intros ?. do 2 f_equal. lia.
  - (* a longer integer is rounded to 53 bits *)
    assert (53 ≤ L) as HL53 by (subst L; by apply Z.log2_le_pow2).
    assert (1 ≤ c) as Hc1 by lia.
    remember (L - 52) as E eqn:HeqE.
    assert (0 < 2 ^ E) as HE by (apply Z.pow_pos_nonneg; lia).
    assert (rne_scaled n (2 ^ c) (L - c - 52) = rne n (2 ^ E)) as ->.
    { unfold rne_scaled. destruct (Z.leb_spec 0 (L - c - 52)).
      - rewrite <-Z.pow_add_r by lia. do 2 f_equal. lia.
      - replace (2 ^ c) with (2 ^ (- (L - c - 52)) * 2 ^ E)
          by (rewrite <-Z.pow_add_r by lia; f_equal; lia).
        rewrite (Z.mul_comm n). apply rne_scale; [|done].
        apply Z.pow_pos_nonneg; lia. }
    assert (2 ^ 52 ≤ rne n (2 ^ E)) as Hlow.
    { apply rne_ge; [done|]. rewrite <-Z.pow_add_r by lia.
      by replace (52 + E) with L by lia. }
    assert (rne n (2 ^ E) ≤ 2 ^ 53) as Hup.
    { apply rne_le; [done|]. rewrite <-Z.pow_add_r by lia.
      replace (53 + E) with (Z.succ L) by lia. lia. }
    destruct (Z.eqb_spec (rne n (2 ^ E)) (2 ^ 53)) as [Hcarry|Hcarry].
    + destruct (Z.ltb_spec 971 (L - c - 52 + 1)); [lia|].
      eexists. split; [done|]. unfold is_ratio. simpl. split_and!.
      * lia.
      * intros _. rewrite Hcarry.
        replace (L - c - 52 + 1 + c) with (E + 1) by lia.
        rewrite Z.pow_add_r by lia. change (2 ^ 53) with (2 ^ 52 * 2 ^ 1). ring.
      * lia.
    + destruct (Z.ltb_spec 971 (L - c - 52)); [lia|].
      eexists. split; [done|]. unfold is_ratio. simpl. split_and!.
      * lia.
      * intros _. do 2 f_equal. lia.
      * lia.
Qed.

Lemma round53_small b : b < 2 ^ 53 → round53 b = b.
Proof. intros H. unfold round53. by destruct (Z.ltb_spec b (2 ^ 53)); [|lia]. Qed.

Lemma round53_large b : 2 ^ 53 ≤ b → 2 ^ 53 ≤ round53 b.
Proof.
  intros H. unfold round53. destruct (Z.ltb_spec b (2 ^ 53)); [lia|].
  assert (53 ≤ Z.log2 b) as HL by (apply Z.log2_le_pow2; lia).
  pose proof (Z.log2_spec b ltac:(lia)) as [Hlo _].
  set (E := Z.log2 b - 52) in *.
  assert (0 < 2 ^ E) as HE by (apply Z.pow_pos_nonneg; lia).
  assert (2 ^ 52 ≤ rne b (2 ^ E)) as Hlow.
  { apply rne_ge; [done|]. rewrite <-Z.pow_add_r by lia.
    by replace (52 + E) with (Z.log2 b) by lia. }
  assert (2 ≤ 2 ^ E).
  { change 2 with (2 ^ 1) at 1. apply Z.pow_le_mono_r; lia. }
  change (2 ^ 53) with (2 ^ 52 * 2). nia.
Qed.


Lemma round53_ltb b X : X ≤ 2 ^ 53 → (round53 b <? X) = (b <? X).
Proof.
  intros HX. destruct (Z.lt_ge_cases b (2 ^ 53)) as [H|H].
  - by rewrite round53_small.
  - pose proof (round53_large b H).
    destruct (Z.ltb_spec (round53 b) X), (Z.ltb_spec b X); try reflexivity; lia.
Qed.

Lemma format_float_1f_nonneg f :
  0 ≤ mant f → format_float_1f f = one_decimal (float_tenths f).
Proof.
  intros H. unfold format_float_1f. by destruct (Z.ltb_spec (mant f) 0); [lia|].
Qed.

(** A number of tenths is written with one digit after the point. *)
Lemma one_decimal_digit t :
  0 ≤ t →
  ∃ d : N, (d < 10)%N
    ∧ one_decimal t = pretty (t / 10) +:+ "." +:+ String (pretty_N_char d) EmptyString.
Proof.
  intros Ht. exists (Z.to_N (t mod 10)).
  pose proof (Z.mod_pos_bound t 10 ltac:(lia)) as Hd.
  split; [lia|]. unfold one_decimal. do 2 f_equal.
  assert (t mod 10 = 0 ∨ t mod 10 = 1 ∨ t mod 10 = 2 ∨ t mod 10 = 3 ∨ t mod 10 = 4
          ∨ t mod 10 = 5 ∨ t mod 10 = 6 ∨ t mod 10 = 7 ∨ t mod 10 = 8 ∨ t mod 10 = 9)
    as Hcases by lia.
  destruct Hcases as [-> | [-> | [-> | [-> | [-> | [-> | [-> | [-> | [-> | ->]]]]]]]]];
    reflexivity.
Qed.

(** ** The size formatter *)

Lemma format_size_loop_cons unit units x :
  format_size_loop (unit :: units) x
  = if lt_1024 x then (fun s => s +:+ unit) <$> format_1f x
    else div_1024 x ≫= format_size_loop units.
Proof. done. Qed.

Lemma format_size_loop_float units f R t :
  0 ≤ t → is_ratio f R t →
  format_size_loop units (Flt f)
  = Some (one_decimal (rne (10 * R) (2 ^ (pick_unit units R t).1))
          +:+ (pick_unit units R t).2).
Proof.
  revert f t. induction units as [|unit units IH]; intros f t Ht Hf; simpl.
  - rewrite format_float_1f_nonneg by apply Hf.
    by rewrite (float_tenths_ratio f R t).
  - rewrite (float_lt_1024_ratio f R t) by done.
    destruct (R <? 1024 * 2 ^ t); simpl.
    + rewrite format_float_1f_nonneg by apply Hf.
      by rewrite (float_tenths_ratio f R t).
    + apply IH; [lia|]. by apply float_div_1024_ratio.
Qed.

(** [format_size] in closed form: the count as a float, over the power of
    1024 of its unit, to one decimal. *)
Lemma format_size_value b :
  0 ≤ b < 2 ^ 1024 →
  format_size b
  = Some (one_decimal (rne (10 * round53 b) (1024 ^ unit_index b))
          +:+ unit_name (unit_index b)).
Proof.
  intros [H0 Hmax]. unfold format_size, unit_index.
  rewrite format_size_loop_cons. cbn [lt_1024].
  destruct (Z.ltb_spec b 1024) as [Hb|Hb].
  - cbn [format_1f]. unfold float_of_int, nearest.
    destruct (Z.eqb_spec b 0) as [->|Hne]; [done|].
    destruct (Z.ltb_spec 0 b); [|lia].
    destruct (nearest_pos_pow2 b 0) as (f & Hf & Hr); [lia..|].
    change (2 ^ 0) with 1 in Hf. rewrite Hf. simpl.
    rewrite format_float_1f_nonneg by apply Hr.
    by rewrite (float_tenths_ratio f (round53 b) 0).
  - cbn [div_1024]. unfold nearest.
    destruct (Z.eqb_spec b 0) as [->|Hne]; [lia|].
    destruct (Z.ltb_spec 0 b); [|lia].
    destruct (nearest_pos_pow2 b 10) as (f & Hf & Hr); [lia..|].
    change (2 ^ 10) with 1024 in Hf. rewrite Hf.
    cbn [fmap option_fmap option_map mbind option_bind].
    rewrite (format_size_loop_float _ f (round53 b) 10) by done.
    cbn [pick_unit].
    rewrite !round53_ltb by done.
    change (1024 * 2 ^ 10) with (1024 ^ 2).
    change (1024 * 2 ^ (10 + 10)) with (1024 ^ 3).
    change (1024 * 2 ^ (10 + 10 + 10)) with (1024 ^ 4).
    destruct (b <? 1024 ^ 2); [done|].
    destruct (b <? 1024 ^ 3); [done|].
    by destruct (b <? 1024 ^ 4).
Qed.

Lemma format_size_is_Some b : 0 ≤ b < 2 ^ 1024 → is_Some (format_size b).
Proof. intros H. rewrite format_size_value by done. eauto. Qed.



(** The renderings of the specification's example, a tie ([1280 / 1024]
    is [1.25]), and the last count of a unit, whose value rounds up to
    1024. *)
Example format_size_examples :
  format_size 500 = Some "500.0B" ∧ format_size 200 = Some "200.0B"
  ∧ format_size 0 = Some "0.0B" ∧ format_size 1280 = Some "1.2K"
  ∧ format_size 1048575 = Some "1024.0K" ∧ format_size (1024 ^ 4) = Some "1.0T".
Proof. by vm_compute. Qed.

(** At the edges of the float: a count of more than 53 bits is rounded
    before it is divided (here up to [32771 * 2 ^ 38], which is
    [8192.75 * 1024 ^ 4]), and a count whose quotient by 1024 no float
    can hold ends the call with [OverflowError]. *)
Example format_size_float_edges :
  format_size (32771 * 2 ^ 38 - 1) = Some "8192.8T"
  ∧ format_size (2 ^ 1034) = None.
Proof. by vm_compute. Qed.

(** ** The summary *)

Lemma items_all_categories categories :
  items categories
  = (fun c => (category_name c, category_group categories c)) <$> all_categories.
Proof. done. Qed.

Lemma foldl_add a l : foldl Z.add a l = a + sum l.
Proof.
  unfold sum. revert a. induction l as [|x l IH]; intros a; simpl; [lia|].
  rewrite (IH (a + x)), (IH (0 + x)). lia.
Qed.

Lemma sum_cons x l : sum (x :: l) = x + sum l.
Proof. unfold sum at 1. simpl. by rewrite foldl_add. Qed.

Lemma sum_app l1 l2 : sum (l1 ++ l2) = sum l1 + sum l2.
Proof.
  induction l1 as [|x l1 IH]; [done|]. simpl. rewrite !sum_cons, IH. lia.
Qed.

Global Instance sum_perm : Proper ((≡ₚ) ==> (=)) sum.
Proof.
  induction 1 as [|x l1 l2 _ IH|x y l|l1 l2 l3 _ IH1 _ IH2].
  - done.
  - by rewrite !sum_cons, IH.
  - rewrite !sum_cons. lia.
  - congruence.
Qed.

Lemma sum_lengths (ls : list (list FileInfo)) :
  sum (map (fun files => Z.of_nat (length files)) ls) = Z.of_nat (length (concat ls)).
Proof.
  induction ls as [|l ls IH]; [done|]. simpl.
  rewrite sum_cons, IH, length_app. lia.
Qed.

Lemma group_count_members categories c :
  group_count (category_group categories c) = Z.of_nat (length (members categories c)).
Proof. destruct c; simpl; [apply sum_lengths|done]. Qed.

Lemma group_total_size_members categories c :
  group_total_size (category_group categories c) = sum (snd <$> members categories c).
Proof. by destruct c. Qed.

Lemma dict_values_insert_fresh (d : gmap string (list FileInfo)) ext l :
  d !! ext = None → concat (dict_values (<[ext := l]> d)) ≡ₚ l ++ concat (dict_values d).
Proof.
  intros H. unfold dict_values. by rewrite map_to_list_insert.
Qed.

Lemma dict_values_append ext fi (d : gmap string (list FileInfo)) :
  concat (dict_values (dict_append ext fi d)) ≡ₚ concat (dict_values d) ++ [fi].
Proof.
  unfold dict_append. rewrite lookup_total_alt.
  destruct (d !! ext) as [l|] eqn:E; simpl.
  - rewrite <-insert_delete_eq.
    rewrite dict_values_insert_fresh by apply lookup_delete_eq.
    rewrite <-(insert_delete_id d ext l) at 2 by done.
    rewrite dict_values_insert_fresh by apply lookup_delete_eq.
    rewrite <-!app_assoc. f_equiv. apply Permutation_app_comm.
  - rewrite dict_values_insert_fresh by done. simpl.
    by rewrite Permutation_app_comm.
Qed.

Lemma dict_values_fmap (f : list FileInfo → list FileInfo) (d : gmap string (list FileInfo)) :
  (∀ l, f l ≡ₚ l) → concat (dict_values (f <$> d)) ≡ₚ concat (dict_values d).
Proof.
  intros Hf. unfold dict_values. rewrite map_to_list_fmap.
  induction (map_to_list d) as [|[k l] kl IH]; [done|].
  simpl. by rewrite Hf, IH.
Qed.

Section members_facts.
Variable guess_type : string → option string.
Variable directory : string.

Lemma classified_files_snoc c entries entry :
classified_files guess_type directory c (entries ++ [entry])
= classified_files guess_type directory c entries
  ++ (if decide (is_file entry = true ∧ classify guess_type directory entry = c)
      then [file_info entry] else []).
Proof.
unfold classified_files. rewrite filter_app, fmap_app. f_equal.
case_decide.
- by rewrite filter_cons_True.
- by rewrite filter_cons_False.
Qed.

Lemma members_scan_files c entries :
members (scan_files guess_type directory entries) c
≡ₚ classified_files guess_type directory c entries.
Proof.
induction entries as [|entry entries IH] using rev_ind.
{ by destruct c as [[]|]. }
rewrite scan_files_snoc, classified_files_snoc.
destruct (is_file entry) eqn:Hf.
2:{ rewrite categorize_entry_not_file by done.
    rewrite decide_False by (intros [? _]; congruence).
    by rewrite app_nil_r. }
rewrite categorize_entry_classify by done.
destruct (classify guess_type directory entry) as [c'|] eqn:Hc;
  destruct c as [c|]; simpl.
- unfold append_keyed. destruct (decide (c' = c)) as [->|Hne].
  + rewrite group_set_group, dict_values_append.
    rewrite decide_True by done. by f_equiv.
  + rewrite group_set_group_ne by done.
    rewrite decide_False by (intros [_ ?]; congruence).
    by rewrite app_nil_r.
- unfold append_keyed. rewrite other_set_group.
  rewrite ?decide_False by (intros [_ ?]; congruence).
  by rewrite app_nil_r.
- rewrite group_append_other.
  rewrite ?decide_False by (intros [_ ?]; congruence).
  by rewrite app_nil_r.
- rewrite ?decide_True by done. by f_equiv.
Qed.

Lemma members_categorize_files c entries :
members (categorize_files guess_type directory entries) c
≡ₚ classified_files guess_type directory c entries.
Proof.
rewrite <-members_scan_files. unfold categorize_files, sort_categories.
destruct c as [[]|]; simpl; rewrite ?sort_group_fmap;
  first [apply dict_values_fmap; intros l; apply sorted_by_perm
        | apply sorted_by_perm].
Qed.
End members_facts.

(** The loop of [display_summary] prints the rows one after the other when
    no iteration raises. *)
Lemma for_each_rows {A} (l : list A) (body : A → Out unit) (out : A → list string) :
  (∀ x, x ∈ l → body x = (out x, Some tt)) →
  for_each l body = (concat (out <$> l), Some tt).
Proof.
  induction l as [|x l IH]; intros Hbody; [done|].
  simpl. unfold mbind, Out_bind.
  rewrite (Hbody x) by (by left). simpl.
  rewrite IH by (intros y Hy; apply Hbody; by right). done.
Qed.

Lemma concat_rows {A} (P : A → Prop) `{!∀ x, Decision (P x)} (row : A → string) l :
  concat ((fun x => if decide (P x) then [row x] else []) <$> l) = row <$> filter P l.
Proof.
  induction l as [|x l IH]; [done|]. rewrite fmap_cons. simpl. rewrite IH.
  destruct (decide (P x)).
  - by rewrite filter_cons_True.
  - by rewrite filter_cons_False.
Qed.

Lemma print_bind {B} (line : string) (k : unit → Out B) :
  print line ≫= k = (line :: (k tt).1, (k tt).2).
Proof. done. Qed.

Lemma display_summary_eval (categories : Categories) :
  (∀ c, format_size (sum (snd <$> members categories c))
        = Some (size_text (sum (snd <$> members categories c)))) →
  display_summary categories
  = (summary_header
     ++ ((fun c => summary_row (category_name c)
                     (Z.of_nat (length (members categories c)))
                     (size_text (sum (snd <$> members categories c))))
           <$> filter (fun c => members categories c ≠ []) all_categories),
     Some tt).
Proof.
  intros Hfmt. unfold display_summary. rewrite items_all_categories.
  rewrite (for_each_rows _ _
    (fun '(category, group) =>
       if decide (0 < group_count group)
       then [summary_row category (group_count group)
               (size_text (group_total_size group))]
       else [])).
  2:{ intros [category g] (c & [= -> ->] & _)%list_elem_of_fmap.
      rewrite group_count_members, group_total_size_members.
      destruct (Z.ltb_spec 0 (Z.of_nat (length (members categories c)))).
      - rewrite decide_True by done. by rewrite Hfmt.
      - by rewrite decide_False by lia. }
  rewrite !print_bind. cbn [fst snd]. unfold summary_header.
  cbn [app]. do 4 f_equal.
  rewrite <-list_fmap_compose.
  rewrite <-(concat_rows (fun c => members categories c ≠ [])).
  f_equal. apply list_fmap_ext. intros _ c _. cbn [compose].
  rewrite group_count_members, group_total_size_members.
  destruct (decide (members categories c ≠ [])) as [Hne|He].
  - rewrite decide_True; [done|].
    destruct (members categories c); [done|simpl; lia].
  - apply dec_stable in He. rewrite decide_False; [done|]. rewrite He. simpl. lia.
Qed.

(** C6. For the categories [categorize_files] returns: the pairs a
    category holds are those of the files classified into it; and, when
    the total size of every category is in the range of a float,
    [display_summary] prints its three header lines and then one row for
    each category that holds a file, in the order Image/Video, Document,
    Executable, Programming, Other; the row gives the name of the
    category, the number of pairs in its lists (all the lists of a keyed
    category, the one list of Other), and the sum of their sizes as
    [format_size] writes it. *)
Theorem display_summary_rows (guess_type : string → option string) (directory : string)
    (entries : list DirEntry) :
  let categories := categorize_files guess_type directory entries in
  let files := members categories in
  let count c := Z.of_nat (length (files c)) in
  let total c := sum (snd <$> files c) in
  (∀ c, files c ≡ₚ classified_files guess_type directory c entries)
  ∧ (∀ c, group_count (category_group categories c) = count c
          ∧ group_total_size (category_group categories c) = total c)
  ∧ ((∀ c, 0 ≤ total c < 2 ^ 1024) →
     (∀ c, format_size (total c) = Some (size_text (total c)))
     ∧ display_summary categories
       = (summary_header
          ++ ((fun c => summary_row (category_name c) (count c) (size_text (total c)))
                <$> filter (fun c => files c ≠ []) all_categories),
          Some tt)).
Proof.
  intros categories files count total. split_and!.
  - intros c. apply members_categorize_files.
  - intros c. split.
    + apply group_count_members.
    + apply group_total_size_members.
  - intros Hrange.
    assert (∀ c, format_size (total c) = Some (size_text (total c))) as Hfmt.
    { intros c. by apply format_size_value. }
    split; [done|]. by apply display_summary_eval.
Qed.


Lemma display_summary_rows_witness :
  let categories := categorize_files guess_type_sample "." example_entries in
  (∀ c, 0 ≤ sum (snd <$> members categories c) < 2 ^ 1024)
  ∧ display_summary categories
    = ([ newline +:+ "Summary:";
         "Category       Count     Total Size     ";
         "----------------------------------------";
         "Image/Video    2         9.8K           ";
         "Document       1         500.0B         ";
         "Executable     1         200.0B         ";
         "Other          1         7.0B           " ],
       Some tt).
Proof.
  cbv zeta. set (categories := categorize_files guess_type_sample "." example_entries).
  assert (∀ c, 0 ≤ sum (snd <$> members categories c) < 2 ^ 1024) as Hrange.
  { intros [[]|]; by vm_compute. }
  subst categories.
  split; [exact Hrange|].
  rewrite (proj2 (proj2 (proj2 (display_summary_rows guess_type_sample "."
                                  example_entries)) Hrange)).
  vm_compute. reflexivity.
Defined.

(** ** More on the size formatter *)

Lemma string_app_assoc (a b c : string) : (a +:+ b) +:+ c = a +:+ (b +:+ c).
Proof.
  induction a as [|x a IH]; [done|].
  change (String x ((a +:+ b) +:+ c) = String x (a +:+ (b +:+ c))). by rewrite IH.
Qed.

Lemma string_app_nil_r (a : string) : a +:+ EmptyString = a.
Proof.
  induction a as [|x a IH]; [done|].
  change (String x (a +:+ EmptyString) = String x a). by rewrite IH.
Qed.

(** A whole number of tenths is written with the digit 0. *)
Lemma one_decimal_whole n : one_decimal (10 * n) = pretty n +:+ ".0".
Proof.
  unfold one_decimal.
  replace (10 * n / 10) with n by (symmetry; rewrite Z.mul_comm; apply Z.div_mul; lia).
  replace ((10 * n) mod 10) with 0 by (symmetry; rewrite Z.mul_comm; apply Z.mod_mul; lia).
  done.
Qed.

Lemma unit_index_whole n k :
  0 ≤ n < 1024 → 0 ≤ k ≤ 4 → 1 ≤ n ∨ k = 0 → unit_index (n * 1024 ^ k) = k.
Proof.
  intros Hn Hk Hpos. unfold unit_index.
  assert (k = 0 ∨ k = 1 ∨ k = 2 ∨ k = 3 ∨ k = 4) as Hcases by lia.
  destruct Hcases as [-> | [-> | [-> | [-> | ->]]]].
  - destruct (Z.ltb_spec (n * 1024 ^ 0) 1024); [done|lia].
  - destruct (Z.ltb_spec (n * 1024 ^ 1) 1024); [lia|].
    destruct (Z.ltb_spec (n * 1024 ^ 1) (1024 ^ 2)); [done|lia].
  - destruct (Z.ltb_spec (n * 1024 ^ 2) 1024); [lia|].
    destruct (Z.ltb_spec (n * 1024 ^ 2) (1024 ^ 2)); [lia|].
    destruct (Z.ltb_spec (n * 1024 ^ 2) (1024 ^ 3)); [done|lia].
  - destruct (Z.ltb_spec (n * 1024 ^ 3) 1024); [lia|].
    destruct (Z.ltb_spec (n * 1024 ^ 3) (1024 ^ 2)); [lia|].
    destruct (Z.ltb_spec (n * 1024 ^ 3) (1024 ^ 3)); [lia|].
    destruct (Z.ltb_spec (n * 1024 ^ 3) (1024 ^ 4)); [done|lia].
  - destruct (Z.ltb_spec (n * 1024 ^ 4) 1024); [lia|].
    destruct (Z.ltb_spec (n * 1024 ^ 4) (1024 ^ 2)); [lia|].
    destruct (Z.ltb_spec (n * 1024 ^ 4) (1024 ^ 3)); [lia|].
    destruct (Z.ltb_spec (n * 1024 ^ 4) (1024 ^ 4)); [lia|done].
Qed.

(** X1. A whole number [n] of units, below 1024 of them, is printed as [n]
    with [.0] and the letter of the unit: bytes below 1024 as they are,
    [1024 ^ k] as [1.0] of the [k]-th unit. *)
Theorem format_size_whole_units (n k : Z) :
  0 ≤ n < 1024 → 0 ≤ k ≤ 4 → 1 ≤ n ∨ k = 0 →
  format_size (n * 1024 ^ k) = Some (pretty n +:+ ".0" +:+ unit_name k).
Proof.
  intros Hn Hk Hpos.
  assert (0 < 1024 ^ k) as HP by (apply Z.pow_pos_nonneg; lia).
  assert (1024 ^ k ≤ 1024 ^ 4) as HP4 by (apply Z.pow_le_mono_r; lia).
  assert (n * 1024 ^ k < 2 ^ 53) as Hsmall.
  { change (2 ^ 53) with (8192 * 1024 ^ 4). nia. }
  rewrite format_size_value.
  2:{ split; [nia|]. transitivity (2 ^ 53); [done|]. by vm_compute. }
  rewrite unit_index_whole by done.
  rewrite round53_small by done.
  replace (10 * (n * 1024 ^ k)) with (10 * n * 1024 ^ k) by ring.
  rewrite rne_exact by done. rewrite one_decimal_whole.
  by rewrite string_app_assoc.
Qed.

Lemma format_size_whole_units_witness :
  0 ≤ 3 < 1024 ∧ 0 ≤ 2 ≤ 4 ∧ (1 ≤ 3 ∨ 2 = 0)
  ∧ format_size (3 * 1024 ^ 2) = Some "3.0M".
Proof.
  assert (0 ≤ 3 < 1024) as Hn by lia.
  assert (0 ≤ 2 ≤ 4) as Hk by lia.
  assert (1 ≤ 3 ∨ 2 = 0) as Hpos by (left; lia).
  split; [exact Hn|]. split; [exact Hk|]. split; [exact Hpos|].
  exact (format_size_whole_units 3 2 Hn Hk Hpos).
Defined.

(** X2. The number printed is at least [1.0] from 1024 bytes on, and at most
    [1024.0] for a count below [1024 ^ 4]: a count just below the next
    unit rounds up to [1024.0] of its own. *)
Theorem format_size_number_bounds (b : Z) :
  0 ≤ b < 2 ^ 1024 →
  ∃ t, format_size b = Some (one_decimal t +:+ unit_name (unit_index b))
       ∧ 0 ≤ t
       ∧ (1024 ≤ b → 10 ≤ t)
       ∧ (b < 1024 ^ 4 → t ≤ 10240).
Proof.
  intros Hb. eexists. split; [by apply format_size_value|].
  assert (0 ≤ unit_index b ≤ 4) as Hk.
  { unfold unit_index. repeat destruct (_ <? _); lia. }
  assert (0 < 1024 ^ unit_index b) as HP by (apply Z.pow_pos_nonneg; lia).
  assert (0 ≤ round53 b) as HR.
  { destruct (Z.lt_ge_cases b (2 ^ 53)).
    - rewrite round53_small by done. lia.
    - pose proof (round53_large b). lia. }
  split_and!.
  - apply rne_ge; [done|]. lia.
  - intros H1024. apply rne_ge; [done|].
    destruct (Z.lt_ge_cases b (2 ^ 53)) as [Hs|Hs].
    + rewrite round53_small by done.
      unfold unit_index in *.
      destruct (Z.ltb_spec b 1024); [lia|].
      destruct (Z.ltb_spec b (1024 ^ 2)); [lia|].
      destruct (Z.ltb_spec b (1024 ^ 3)); [lia|].
      destruct (Z.ltb_spec b (1024 ^ 4)); lia.
    + pose proof (round53_large b Hs).
      assert (1024 ^ unit_index b ≤ 1024 ^ 4) by (apply Z.pow_le_mono_r; lia).
      assert (1024 ^ 4 < 2 ^ 53) by (by vm_compute). lia.
  - intros H4. apply rne_le; [done|].
    rewrite round53_small by (assert (1024 ^ 4 < 2 ^ 53) by (by vm_compute); lia).
    unfold unit_index in *.
    destruct (Z.ltb_spec b 1024); [lia|].
    destruct (Z.ltb_spec b (1024 ^ 2)); [lia|].
    destruct (Z.ltb_spec b (1024 ^ 3)); [lia|].
    destruct (Z.ltb_spec b (1024 ^ 4)); lia.
Qed.

Lemma format_size_number_bounds_witness :
  0 ≤ 1048575 < 2 ^ 1024
  ∧ ∃ t, format_size 1048575 = Some (one_decimal t +:+ unit_name (unit_index 1048575))
         ∧ 0 ≤ t ∧ (1024 ≤ 1048575 → 10 ≤ t) ∧ (1048575 < 1024 ^ 4 → t ≤ 10240).
Proof.
  assert (0 ≤ 1048575 < 2 ^ 1024) as H by (by vm_compute).
  split; [exact H|]. exact (format_size_number_bounds 1048575 H).
Defined.

(** X3. A negative count is below 1024 at the first test of the loop, so it
    is never divided: it is printed whole, with its sign and the unit B. *)
Theorem format_size_negative (b : Z) :
  - 2 ^ 53 < b < 0 → format_size b = Some ("-" +:+ pretty (- b) +:+ ".0B").
Proof.
  intros Hb. unfold format_size. rewrite format_size_loop_cons. cbn [lt_1024].
  destruct (Z.ltb_spec b 1024); [|lia].
  cbn [format_1f]. unfold float_of_int, nearest.
  destruct (Z.eqb_spec b 0); [lia|]. destruct (Z.ltb_spec 0 b); [lia|].
  destruct (nearest_pos_pow2 (- b) 0) as (f & Hf & Hr).
  { split; [lia|]. transitivity (2 ^ 53); [lia|by vm_compute]. }
  { lia. }
  { left. lia. }
  change (2 ^ 0) with 1 in Hf. rewrite Hf.
  rewrite round53_small in Hr by lia.
  pose proof (float_tenths_ratio f (- b) 0 ltac:(lia) Hr) as Ht.
  change (2 ^ 0) with 1 in Ht. rewrite rne_one in Ht.
  assert (0 < mant f) as Hm.
  { destruct Hr as (Hm0 & Hpos & Hneg). destruct (Z.le_gt_cases 0 (expo f + 0)) as [He|He].
    - specialize (Hpos He).
      assert (0 < 2 ^ (expo f + 0)) by (by apply Z.pow_pos_nonneg). nia.
    - specialize (Hneg He).
      assert (0 < 2 ^ (- (expo f + 0))) by (apply Z.pow_pos_nonneg; lia). nia. }
  cbn [fmap option_fmap option_map]. unfold format_float_1f, float_tenths in *.
  cbn [mant expo]. rewrite Z.abs_opp.
  destruct (Z.ltb_spec (- mant f) 0); [|lia].
  rewrite Ht, one_decimal_whole. by rewrite !string_app_assoc.
Qed.

Lemma format_size_negative_witness :
  - 2 ^ 53 < -5000000 < 0 ∧ format_size (-5000000) = Some "-5000000.0B".
Proof.
  assert (- 2 ^ 53 < -5000000 < 0) as H by lia.
  split; [exact H|]. exact (format_size_negative (-5000000) H).
Defined.

(** The float nearest to [n / 2 ^ c] for an integer of more than 53 bits:
    the mantissa is [n] rounded at the bit [Z.log2 n - 52]. *)
Lemma nearest_pos_large n c :
  2 ^ 53 ≤ n → 0 ≤ c →
  nearest_pos n (2 ^ c)
  = (if rne n (2 ^ (Z.log2 n - 52)) =? 2 ^ 53
     then if 971 <? Z.log2 n - 52 - c + 1 then None
          else Some (Float (2 ^ 52) (Z.log2 n - 52 - c + 1))
     else if 971 <? Z.log2 n - 52 - c then None
          else Some (Float (rne n (2 ^ (Z.log2 n - 52))) (Z.log2 n - 52 - c))).
Proof.
  intros H53 Hc. unfold nearest_pos.
  assert (0 < n) as Hn by (assert (0 < 2 ^ 53) by done; lia).
  rewrite Z.log2_pow2 by done. rewrite scaled_le_pow2 by done.
  assert (53 ≤ Z.log2 n) as HL by (by apply Z.log2_le_pow2).
  remember (Z.log2 n) as L eqn:HeqL.
  assert (rne_scaled n (2 ^ c) (L - c - 52) = rne n (2 ^ (L - 52))) as ->.
  { unfold rne_scaled. destruct (Z.leb_spec 0 (L - c - 52)).
    - rewrite <-Z.pow_add_r by lia. do 2 f_equal. lia.
    - replace (2 ^ c) with (2 ^ (- (L - c - 52)) * 2 ^ (L - 52))
        by (rewrite <-Z.pow_add_r by lia; f_equal; lia).
      rewrite (Z.mul_comm n). apply rne_scale; apply Z.pow_pos_nonneg; lia. }
  replace (L - c - 52) with (L - 52 - c) by lia.
  by destruct (_ =? _).
Qed.

(** Rounding carries into a 54th bit exactly from half a unit below
    [2 ^ 53] units on. *)
Lemma rne_carry n d h :
  0 < h → d = 2 * h → 0 ≤ n < 2 ^ 53 * d →
  (rne n d = 2 ^ 53 ↔ 2 ^ 53 * d - h ≤ n).
Proof.
  intros Hh -> Hn. unfold rne.
  pose proof (Z.mod_pos_bound n (2 * h) ltac:(lia)) as Hr.
  pose proof (Z.div_mod n (2 * h) ltac:(lia)) as Hdm.
  assert (n / (2 * h) < 2 ^ 53) as Hq by (apply Z.div_lt_upper_bound; lia).
  assert (0 ≤ n / (2 * h)) as Hq0 by (apply Z.div_pos; lia).
  set (q := n / (2 * h)) in *. set (r := n mod (2 * h)) in *.
  destruct (Z.ltb_spec (2 * r) (2 * h)).
  { split; [lia|]. intros. nia. }
  destruct (Z.ltb_spec (2 * h) (2 * r)).
  { split; intros; nia. }
  assert (r = h) as -> by lia.
  destruct (Z.even q) eqn:Heven.
  - split; [lia|]. intros Hge. assert (q = 2 ^ 53 - 1) as Hq' by nia.
    rewrite Hq' in Heven. by vm_compute in Heven.
  - split; intros; nia.
Qed.

Lemma nearest_pos_1024_None n :
  0 < n → (nearest_pos n 1024 = None ↔ 2 ^ 1034 - 2 ^ 980 ≤ n).
Proof.
  intros Hn.
  assert (2 ^ 53 < 2 ^ 1024) as H53 by (by vm_compute).
  assert (2 ^ 1024 < 2 ^ 1034 - 2 ^ 980) as Hthr by (by vm_compute).
  destruct (Z.lt_ge_cases n (2 ^ 1024)) as [Hsmall|Hbig].
  { destruct (nearest_pos_pow2 n 10) as (f & Hf & _); [lia..|].
    change (2 ^ 10) with 1024 in Hf. rewrite Hf. split; [done|lia]. }
  change 1024 with (2 ^ 10). rewrite nearest_pos_large by lia.
  assert (1024 ≤ Z.log2 n) as HL by (apply Z.log2_le_pow2; lia).
  pose proof (Z.log2_spec n Hn) as [Hlo Hhi].
  remember (Z.log2 n) as L eqn:HeqL.
  destruct (Z.lt_trichotomy L 1033) as [Hlt | [-> | Hgt]].
  - (* below the last binade: the exponent fits even after a carry *)
    destruct (Z.ltb_spec 971 (L - 52 - 10 + 1)); [lia|].
    destruct (Z.ltb_spec 971 (L - 52 - 10)); [lia|].
    assert (n < 2 ^ 1033).
    { eapply Z.lt_le_trans; [exact Hhi|]. apply Z.pow_le_mono_r; lia. }
    assert (2 ^ 1033 < 2 ^ 1034 - 2 ^ 980) by (by vm_compute).
    destruct (_ =? _); split; (done || lia).
  - (* the last binade: only a carry leaves the range *)
    change (971 <? 1033 - 52 - 10 + 1) with true.
    change (971 <? 1033 - 52 - 10) with false.
    change (1033 - 52) with 981. cbn iota.
    pose proof (rne_carry n (2 ^ 981) (2 ^ 980) ltac:(done) ltac:(done)) as Hc.
    change (2 ^ 53 * 2 ^ 981) with (2 ^ 1034) in Hc.
    change (Z.succ 1033) with 1034 in Hhi.
    specialize (Hc ltac:(lia)).
    destruct (Z.eqb_spec (rne n (2 ^ 981)) (2 ^ 53)) as [Heq|Hne].
    + split; [intros _; by apply Hc|done].
    + split; [done|]. intros Hge. by apply Hc in Hge.
  - (* beyond: the exponent is out of range *)
    destruct (Z.ltb_spec 971 (L - 52 - 10 + 1)); [|lia].
    destruct (Z.ltb_spec 971 (L - 52 - 10)); [|lia].
    assert (2 ^ 1034 ≤ n).
    { eapply Z.le_trans; [|exact Hlo]. apply Z.pow_le_mono_r; lia. }
    assert (2 ^ 1034 - 2 ^ 980 < 2 ^ 1034) by (by vm_compute).
    destruct (_ =? _); split; (done || lia).
Qed.

Lemma format_size_loop_float_Some units f :
  is_Some (format_size_loop units (Flt f)).
Proof.
  revert f. induction units as [|unit units IH]; intros f; simpl; [eauto|].
  destruct (float_lt_1024 f); simpl; [eauto|apply IH].
Qed.

(** X4. [format_size] raises exactly when the first division does: from the
    count whose quotient by 1024 rounds to [2 ^ 1024] on.  No smaller
    count makes it fail. *)
Theorem format_size_overflow (b : Z) :
  0 ≤ b → (format_size b = None ↔ 2 ^ 1034 - 2 ^ 980 ≤ b).
Proof.
  intros Hb.
  assert (1024 < 2 ^ 1034 - 2 ^ 980) as Hthr by (by vm_compute).
  unfold format_size. rewrite format_size_loop_cons. cbn [lt_1024].
  destruct (Z.ltb_spec b 1024) as [Hlt|Hge].
  - assert (is_Some (format_size b)) as [s Hs].
    { apply format_size_is_Some. split; [done|].
      transitivity 1024; [done|by vm_compute]. }
    unfold format_size in Hs. rewrite format_size_loop_cons in Hs. cbn [lt_1024] in Hs.
    destruct (Z.ltb_spec b 1024); [|lia]. rewrite Hs. split; [done|lia].
  - cbn [div_1024]. unfold nearest.
    destruct (Z.eqb_spec b 0); [lia|]. destruct (Z.ltb_spec 0 b); [|lia].
    rewrite <-nearest_pos_1024_None by lia.
    destruct (nearest_pos b 1024) as [f|]; [|done].
    cbn [fmap option_fmap option_map mbind option_bind].
    destruct (format_size_loop_float_Some ["K"; "M"; "G"] f) as [s ->].
    done.
Qed.

Lemma format_size_overflow_witness :
  0 ≤ 2 ^ 1034 ∧ format_size (2 ^ 1034) = None.
Proof.
  assert (0 ≤ 2 ^ 1034) as H by (by vm_compute).
  split; [exact H|]. apply (format_size_overflow (2 ^ 1034) H). by vm_compute.
Defined.

(** ** More on the sort *)

(** The sort is stable: the elements that share a key keep the order they
    had. *)
Lemma insert_by_stable {A} (key : A → string) (k : string) (x : A) (l : list A) :
  filter (fun y => key y = k) (insert_by key x l)
  = filter (fun y => key y = k) (x :: l).
Proof.
  induction l as [|y l IH]; [done|]. simpl.
  destruct (String.leb (key x) (key y)) eqn:E; [done|].
  assert (key x ≠ key y) as Hne.
  { intros Heq. rewrite Heq in E.
    pose proof (reflexivity (R := String.le) (key y)) as Hr.
    unfold String.le in Hr. by rewrite E in Hr. }
  rewrite (filter_cons _ y), IH, !filter_cons.
  destruct (decide (key y = k)), (decide (key x = k)); congruence.
Qed.

Lemma sorted_by_stable {A} (key : A → string) (k : string) (l : list A) :
  filter (fun y => key y = k) (sorted_by key l) = filter (fun y => key y = k) l.
Proof.
  induction l as [|x l IH]; [done|]. simpl.
  by rewrite insert_by_stable, !filter_cons, IH.
Qed.

Lemma lower_char_idemp c : PyStr.lower_char (PyStr.lower_char c) = PyStr.lower_char c.
Proof. by destruct c as [[] [] [] [] [] [] [] []]. Qed.

Lemma lower_idemp s : PyStr.lower (PyStr.lower s) = PyStr.lower s.
Proof.
  induction s as [|c s IH]; [done|]. simpl. by rewrite lower_char_idemp, IH.
Qed.

Lemma lower_extension file : PyStr.lower (extension file) = extension file.
Proof.
  unfold extension, PyStr.or_else.
  destruct (PyStr.truthy _); [apply lower_idemp|done].
Qed.

(** ** More on the categorizer *)

Section categorizer_extras.
Variable guess_type : string → option string.
Variable directory : string.

Lemma elem_of_bucket_files c ext entries info :
  info ∈ bucket_files guess_type directory c ext entries
  ↔ ∃ entry, entry ∈ entries ∧ in_bucket guess_type directory c ext entry
             ∧ info = file_info entry.
Proof.
  unfold bucket_files. rewrite list_elem_of_fmap. split.
  - intros (entry & -> & [Hb Hin]%list_elem_of_filter). eauto.
  - intros (entry & Hin & Hb & ->). exists entry. split; [done|].
    by apply list_elem_of_filter.
Qed.

Lemma bucket_files_nil c ext entries :
  bucket_files guess_type directory c ext entries = []
  ↔ ∀ entry, entry ∈ entries → ¬ in_bucket guess_type directory c ext entry.
Proof.
  split.
  - intros Hnil entry Hin Hb.
    assert (file_info entry ∈ bucket_files guess_type directory c ext entries) as H.
    { apply elem_of_bucket_files. eauto. }
    rewrite Hnil in H. by apply not_elem_of_nil in H.
  - intros Hnone. destruct (bucket_files _ _ _ _ _) as [|info l] eqn:E; [done|].
    assert (info ∈ bucket_files guess_type directory c ext entries) as H
      by (rewrite E; by left).
    apply elem_of_bucket_files in H as (entry & Hin & Hb & _).
    by destruct (Hnone entry Hin).
Qed.

(** The keys of a keyed category are the extensions of the files that
    are classified there. *)
Lemma elem_of_dom_group (entries : list DirEntry) (c : Keyed) (ext : string) :
  ext ∈ dom (group c (categorize_files guess_type directory entries))
  ↔ ∃ entry, entry ∈ entries ∧ is_file entry = true
             ∧ classify guess_type directory entry = InGroup c
             ∧ extension (name entry) = ext.
Proof.
  rewrite elem_of_dom, lookup_categorize_files. unfold opt_list.
  destruct (decide (sorted_by name_key _ = [])) as [Hnil|Hne].
  - apply sorted_by_nil_iff in Hnil. split; [by intros [? ?]|].
    intros (entry & Hin & Hf & Hc & He). exfalso.
    eapply bucket_files_nil; [exact Hnil|exact Hin|].
    unfold in_bucket. eauto.
  - split; [|eauto]. intros _.
    rewrite sorted_by_nil_iff in Hne.
    destruct (bucket_files _ _ _ _ _) as [|info l] eqn:E; [done|].
    assert (info ∈ bucket_files guess_type directory (InGroup c) ext entries) as H
      by (rewrite E; by left).
    apply elem_of_bucket_files in H as (entry & Hin & (Hf & Hc & [?|He]) & _);
      [done|eauto 6].
Qed.

Lemma lookup_group_not_nil (entries : list DirEntry) (c : Keyed) (ext : string) :
  group c (categorize_files guess_type directory entries) !! ext ≠ Some [].
Proof.
  rewrite lookup_categorize_files. unfold opt_list. case_decide; [done|congruence].
Qed.

Lemma group_key_lower (entries : list DirEntry) (c : Keyed) (ext : string) :
  ext ∈ dom (group c (categorize_files guess_type directory entries)) →
  PyStr.lower ext = ext.
Proof. intros (entry & _ & _ & _ & <-)%elem_of_dom_group. apply lower_extension. Qed.

(** X7. An extension is a key of a keyed category exactly when some regular
    file of the scan is classified there with that extension, and the list
    under a key is never empty. *)
Theorem categorize_files_keys (entries : list DirEntry) (c : Keyed) (ext : string) :
  (ext ∈ dom (group c (categorize_files guess_type directory entries))
   ↔ ∃ entry, entry ∈ entries ∧ is_file entry = true
              ∧ classify guess_type directory entry = InGroup c
              ∧ extension (name entry) = ext)
  ∧ group c (categorize_files guess_type directory entries) !! ext ≠ Some [].
Proof. split; [apply elem_of_dom_group|apply lookup_group_not_nil]. Qed.


Lemma classify_programming entry :
  classify guess_type directory entry = InGroup Programming →
  extension (name entry) ∈ programming_extensions
  ∧ (extension (name entry) ∉ image_video_extensions)
  ∧ (extension (name entry) ∉ document_extensions)
  ∧ (extension (name entry) ∉ executable_extensions)
  ∧ access_x entry = false.
Proof.
  unfold classify.
  destruct (decide (extension (name entry) ∈ image_video_extensions)) as [H1|H1].
  { by rewrite bool_decide_eq_true_2. }
  rewrite (bool_decide_eq_false_2 _ H1).
  destruct (decide (extension (name entry) ∈ document_extensions)) as [H2|H2].
  { by rewrite bool_decide_eq_true_2. }
  rewrite (bool_decide_eq_false_2 _ H2).
  destruct (decide (extension (name entry) ∈ executable_extensions)) as [H3|H3].
  { by rewrite bool_decide_eq_true_2. }
  rewrite (bool_decide_eq_false_2 _ H3).
  destruct (access_x entry); [done|]. cbn [orb].
  destruct (decide (extension (name entry) ∈ programming_extensions)) as [H4|H4].
  { intros _. by split_and!. }
  rewrite (bool_decide_eq_false_2 _ H4). unfold mime_category.
  destruct (guess_type _); [|done].
  destruct (_ || _); [done|]. by destruct (_ || _).
Qed.

(** X9. The keys of Programming are extensions of its set that no earlier
    test takes: none is in the Image/Video set, so [".ts"], which is in
    both sets, is never a key of Programming. *)
Theorem programming_keys (entries : list DirEntry) (ext : string) :
  ext ∈ dom (programming (categorize_files guess_type directory entries)) →
  ext ∈ programming_extensions
  ∧ (ext ∉ image_video_extensions)
  ∧ (ext ∉ document_extensions)
  ∧ (ext ∉ executable_extensions)
  ∧ ext ≠ ".ts".
Proof.
  intros Hdom.
  apply (elem_of_dom_group entries Programming ext) in Hdom
    as (entry & _ & _ & Hc & <-).
  apply classify_programming in Hc as (H1 & H2 & H3 & H4 & _).
  split_and!; [done..|]. intros Hts. apply H2. rewrite Hts.
  apply (bool_decide_unpack _). by vm_compute.
Qed.


End categorizer_extras.


Lemma programming_keys_witness :
  ".js" ∈ dom (programming (categorize_files guess_type_sample "." source_tree_entries))
  ∧ ".js" ∈ programming_extensions
  ∧ (".js" ∉ image_video_extensions)
  ∧ (".js" ∉ document_extensions)
  ∧ (".js" ∉ executable_extensions)
  ∧ ".js" ≠ ".ts".
Proof.
  assert (".js" ∈ dom (programming
            (categorize_files guess_type_sample "." source_tree_entries))) as Hdom.
  { apply (bool_decide_unpack _). by vm_compute. }
  split; [exact Hdom|].
  exact (programming_keys guess_type_sample "." source_tree_entries ".js" Hdom).
Defined.

(** ** What the scans keep and what they leave out *)

Section scan_extras.
Variable guess_type : string → option string.
Variable directory : string.

Lemma classified_files_cons c entry entries :
  classified_files guess_type directory c (entry :: entries)
  = (if decide (is_file entry = true ∧ classify guess_type directory entry = c)
     then [file_info entry] else [])
    ++ classified_files guess_type directory c entries.
Proof.
  unfold classified_files. rewrite filter_cons. by case_decide.
Qed.

(** Over the five categories, the classified files add up to the regular
    files, whatever is measured on them. *)
Lemma classified_files_weight (w : FileInfo → Z) entries :
  sum ((fun c => sum (w <$> classified_files guess_type directory c entries))
         <$> all_categories)
  = sum (w <$> (file_info <$> filter (fun e => is_file e = true) entries)).
Proof.
  unfold all_categories.
  induction entries as [|entry entries IH]; [done|].
  rewrite !fmap_cons, !sum_cons, fmap_nil in IH |- *.
  rewrite !classified_files_cons, !fmap_app, !sum_app.
  rewrite filter_cons.
  change (sum []) with 0 in *.
  destruct (is_file entry) eqn:Hf;
    destruct (classify guess_type directory entry) as [[]|] eqn:Hc;
    repeat (case_decide; try (exfalso; intuition congruence));
    rewrite ?fmap_cons, ?fmap_nil, ?sum_cons; change (sum []) with 0; lia.
Qed.

Lemma length_sum_ones {A} (l : list A) :
  Z.of_nat (length l) = sum ((fun _ => 1) <$> l).
Proof.
  induction l as [|x l IH]; [done|]. rewrite fmap_cons, sum_cons. simpl length. lia.
Qed.

(** The same for what [categorize_files] stores. *)
Lemma members_weight (w : FileInfo → Z) entries :
  sum ((fun c => sum (w <$> members (categorize_files guess_type directory entries) c))
         <$> all_categories)
  = sum (w <$> (file_info <$> filter (fun e => is_file e = true) entries)).
Proof.
  rewrite <-classified_files_weight. f_equal. apply list_fmap_ext. intros _ c _.
  by rewrite members_categorize_files.
Qed.

(** X10. No regular file is lost or counted twice, and nothing else is
    stored: over the five categories, the stored pairs are as many as the
    regular files of the scan, and their sizes add up to the same total. *)
Theorem categorize_files_conserves (entries : list DirEntry) :
  let categories := categorize_files guess_type directory entries in
  sum ((fun c => Z.of_nat (length (members categories c))) <$> all_categories)
  = Z.of_nat (length (filter (fun e => is_file e = true) entries))
  ∧ sum ((fun c => sum (snd <$> members categories c)) <$> all_categories)
    = sum (st_size <$> filter (fun e => is_file e = true) entries).
Proof.
  intros categories. unfold categories. split.
  - rewrite <-(length_fmap file_info (filter _ entries)).
    rewrite (length_sum_ones (file_info <$> _)).
    rewrite <-(members_weight (fun _ => 1)).
    f_equal. apply list_fmap_ext. intros _ c _. by rewrite length_sum_ones.
  - rewrite (members_weight snd). by rewrite <-list_fmap_compose.
Qed.

Lemma foldl_categorize_entry_filter categories entries :
  foldl (categorize_entry guess_type directory) categories
    (filter (fun e => is_file e = true) entries)
  = foldl (categorize_entry guess_type directory) categories entries.
Proof.
  revert categories. induction entries as [|entry entries IH]; intros categories; [done|].
  rewrite filter_cons. destruct (is_file entry) eqn:Hf.
  - rewrite decide_True by done. simpl. apply IH.
  - rewrite decide_False by done. simpl.
    by rewrite categorize_entry_not_file, IH.
Qed.

Lemma dir_names_filter entries :
  dir_names (filter (fun e => is_dir e = true) entries) = dir_names entries.
Proof.
  unfold dir_names. f_equal. rewrite list_filter_filter.
  apply list_filter_iff. intros e. destruct (is_dir e); simpl; intuition.
Qed.

(** X6. Each scan looks at its own kind of entry only: [categorize_files]
    returns what it returns on the regular files alone, and
    [list_directories] what it returns on the directories alone; an entry
    that is neither (a socket, a dangling link) changes neither result. *)
Theorem scans_ignore_other_entries (entries : list DirEntry) :
  categorize_files guess_type directory (filter (fun e => is_file e = true) entries)
  = categorize_files guess_type directory entries
  ∧ list_directories (filter (fun e => is_dir e = true) entries)
    = list_directories entries
  ∧ (∀ entry, kind entry = Special →
       categorize_files guess_type directory (entry :: entries)
       = categorize_files guess_type directory entries
       ∧ list_directories (entry :: entries) = list_directories entries).
Proof.
  split_and!.
  - unfold categorize_files, scan_files. by rewrite foldl_categorize_entry_filter.
  - by rewrite !list_directories_eq, dir_names_filter.
  - intros entry Hk. split.
    + unfold categorize_files, scan_files. cbn [foldl].
      rewrite categorize_entry_not_file; [done|].
      unfold is_file. by rewrite Hk.
    + rewrite !list_directories_eq. unfold dir_names.
      rewrite filter_cons_False; [done|]. unfold is_dir. rewrite Hk. simpl. tauto.
Qed.
End scan_extras.



(** ** Printing *)

Lemma Out_bind_Some {A B} (lines : list string) (a : A) (k : A → Out B) :
  (lines, Some a) ≫= k = (lines ++ (k a).1, (k a).2).
Proof. done. Qed.

Lemma Out_mret_bind {A B} (a : A) (k : A → Out B) : mret a ≫= k = k a.
Proof. unfold mbind, Out_bind, mret, Out_ret. cbn [fst snd app]. by destruct (k a). Qed.

Lemma for_each_print {A} (f : A → string) (l : list A) :
  for_each l (fun x => print (f x)) = (f <$> l, Some tt).
Proof.
  induction l as [|x l IH]; [done|]. cbn [for_each].
  by rewrite print_bind, IH.
Qed.

(** The dictionary has the five categories. *)
Lemma elem_of_all_categories (c : Category) : c ∈ all_categories.
Proof.
  apply list_elem_of_In. unfold all_categories.
  destruct c as [[]|]; simpl; tauto.
Qed.

(** A loop raises exactly when one of its iterations does. *)
Lemma for_each_None {A} (l : list A) (body : A → Out unit) :
  (for_each l body).2 = None ↔ ∃ x, x ∈ l ∧ (body x).2 = None.
Proof.
  induction l as [|x l IH].
  { split; [done|]. intros (x & Hx & _). by apply not_elem_of_nil in Hx. }
  cbn [for_each]. unfold mbind, Out_bind.
  destruct (body x).2 as [[]|] eqn:E; cbn [snd].
  - rewrite IH. split.
    + intros (y & Hy & Hn). exists y. split; [by right|done].
    + intros (y & [->|Hy]%elem_of_cons & Hn); [congruence|eauto].
  - split; [|done]. intros _. exists x. split; [by left|done].
Qed.

(** ** The directories section *)

Section directories_section.
Variable colored : string → string → string.

Lemma display_directories_eq hidden_dirs visible_dirs :
  display_directories colored hidden_dirs visible_dirs
  = ([newline +:+ "Directories:"; string_of_list_ascii (repeat "-"%char 40)]
     ++ directory_block colored "Hidden Directories:" "cyan" hidden_dirs
     ++ directory_block colored (newline +:+ "Visible Directories:") "yellow" visible_dirs,
     Some tt).
Proof.
  unfold display_directories, directory_block.
  destruct hidden_dirs as [|h hs], visible_dirs as [|v vs]; cbn [nonempty];
    repeat first [rewrite print_bind | rewrite for_each_print
                 | rewrite Out_mret_bind | rewrite Out_bind_Some];
    unfold mbind, Out_bind, mret, Out_ret; cbn [fst snd app]; by rewrite ?app_nil_r.
Qed.

End directories_section.

(** ** The files section *)

(** [any(lists)]: some list is not empty. *)
Lemma existsb_nonempty_concat {A} (ls : list (list A)) :
  existsb nonempty ls = nonempty (concat ls).
Proof.
  induction ls as [|l ls IH]; [done|]. simpl. rewrite IH. by destruct l.
Qed.

Lemma nonempty_true {A} (l : list A) : nonempty l = true ↔ l ≠ [].
Proof. by destruct l. Qed.

Lemma concat_if {A B} (P : A → Prop) `{!∀ x, Decision (P x)} (f : A → list B) l :
  concat ((fun x => if decide (P x) then f x else []) <$> l) = concat (f <$> filter P l).
Proof.
  induction l as [|x l IH]; [done|]. rewrite fmap_cons. simpl. rewrite IH.
  destruct (decide (P x)).
  - by rewrite filter_cons_True.
  - by rewrite filter_cons_False.
Qed.

Section files_section.
Variable colored : string → string → string.

Lemma print_file_ok indent color info :
  0 ≤ info.2 < 2 ^ 1024 →
  print_file colored indent color info = ([file_line colored indent color info], Some tt).
Proof.
  intros H. unfold print_file, try_call. rewrite format_size_value by done.
  by rewrite Out_bind_Some.
Qed.

Lemma for_each_print_file indent color files :
  Forall (fun info => 0 ≤ info.2 < 2 ^ 1024) files →
  for_each files (print_file colored indent color)
  = (file_line colored indent color <$> files, Some tt).
Proof.
  induction 1 as [|info files Hi _ IH]; [done|]. cbn [for_each].
  by rewrite print_file_ok, Out_bind_Some, IH.
Qed.

Lemma print_group_ok color group :
  group_ok group →
  print_group colored color group = (group_lines colored color group, Some tt).
Proof.
  intros Hok. unfold print_group, group_lines. apply for_each_rows.
  intros ext Hext. rewrite sorted_by_perm in Hext.
  apply list_elem_of_fmap in Hext as ([ext' files] & -> & Hin).
  apply elem_of_map_to_list in Hin. cbn [fst].
  rewrite (lookup_total_correct _ _ _ Hin).
  destruct (Hok _ _ Hin) as [Hne Hsz].
  rewrite (proj2 (nonempty_true files) Hne).
  by rewrite print_bind, for_each_print_file.
Qed.

Lemma display_files_eq categories :
  (∀ c, group_ok (group c categories)) →
  Forall (fun info => 0 ≤ info.2 < 2 ^ 1024) (other categories) →
  display_files colored categories
  = (string_of_list_ascii (repeat "-"%char 40)
     :: concat (category_lines colored categories
                  <$> filter (fun c => members categories c ≠ []) all_categories),
     Some tt).
Proof.
  intros Hok Hother. unfold display_files.
  rewrite print_bind, items_all_categories.
  rewrite (for_each_rows _ _
    (fun '(category, group) =>
       match group with
       | Flat files =>
           if nonempty files
           then (newline +:+ category +:+ " Files:")
                :: (file_line colored "  " "blue" <$> files)
           else []
       | Dict group =>
           if existsb nonempty (dict_values group)
           then (newline +:+ category +:+ " Files:")
                :: group_lines colored
                     (if String.eqb category "Image/Video" then "magenta" else "green")
                     group
           else []
       end)).
  2:{ intros [category g] (c & [= -> ->] & _)%list_elem_of_fmap.
      destruct c as [c|]; cbn [category_group].
      - destruct (existsb nonempty _); [|done]. cbn [negb].
        rewrite print_bind.
        destruct (String.eqb _ _); by rewrite print_group_ok by apply Hok.
      - destruct (nonempty _); [|done]. cbn [negb].
        by rewrite print_bind, for_each_print_file. }
  cbn [fst snd]. do 2 f_equal.
  rewrite <-list_fmap_compose.
  rewrite <-(concat_if (fun c => members categories c ≠ [])).
  f_equal. apply list_fmap_ext. intros _ c _. cbn [compose].
  unfold category_lines.
  destruct c as [c|]; cbn [category_group members category_name].
  - rewrite existsb_nonempty_concat.
    destruct (concat _) as [|x l] eqn:E; cbn [nonempty].
    + by rewrite decide_False by (by intros ?).
    + rewrite decide_True by done. by destruct c.
  - destruct (other categories) as [|x l] eqn:E; cbn [nonempty].
    + by rewrite decide_False by (by intros ?).
    + by rewrite decide_True by done.
Qed.
End files_section.

Section files_of_scan.
Variable colored : string → string → string.
Variable guess_type : string → option string.
Variable directory : string.

Lemma bucket_files_in_range c ext entries :
  sizes_in_range entries →
  Forall (fun info => 0 ≤ info.2 < 2 ^ 1024)
    (bucket_files guess_type directory c ext entries).
Proof.
  intros Hsz. apply Forall_forall. intros info Hin.
  apply elem_of_bucket_files in Hin as (entry & Hin & (Hf & _) & ->).
  by apply Hsz.
Qed.

Lemma categorize_files_group_ok entries c :
  sizes_in_range entries →
  group_ok (group c (categorize_files guess_type directory entries)).
Proof.
  intros Hsz ext files Hl. split.
  - intros ->. by apply (lookup_group_not_nil guess_type directory entries c ext).
  - rewrite lookup_categorize_files in Hl. unfold opt_list in Hl.
    case_decide; [done|]. injection Hl as <-.
    rewrite sorted_by_perm. by apply bucket_files_in_range.
Qed.

Lemma other_in_range entries :
  sizes_in_range entries →
  Forall (fun info => 0 ≤ info.2 < 2 ^ 1024)
    (other (categorize_files guess_type directory entries)).
Proof.
  intros Hsz.
  change (other (categorize_files guess_type directory entries))
    with (bucket (categorize_files guess_type directory entries) Other EmptyString).
  rewrite bucket_categorize_files, sorted_by_perm.
  by apply bucket_files_in_range.
Qed.


End files_of_scan.

(** ** The summary, when a total is out of range *)

Lemma display_summary_None (categories : Categories) :
  (display_summary categories).2 = None
  ↔ ∃ c, members categories c ≠ []
         ∧ format_size (sum (snd <$> members categories c)) = None.
Proof.
  unfold display_summary. rewrite !print_bind. cbn [fst snd].
  rewrite for_each_None, items_all_categories. split.
  - intros ([category g] & (c & [= -> ->] & _)%list_elem_of_fmap & Hn).
    rewrite group_count_members, group_total_size_members in Hn.
    exists c. destruct (Z.ltb_spec 0 (Z.of_nat (length (members categories c)))).
    + split; [by destruct (members categories c)|].
      destruct (format_size _); [done|done].
    + done.
  - intros (c & Hne & Hfmt). exists (category_name c, category_group categories c).
    split.
    + apply list_elem_of_fmap. exists c. split; [done|].
      apply elem_of_all_categories.
    + rewrite group_count_members, group_total_size_members, Hfmt.
      destruct (Z.ltb_spec 0 (Z.of_nat (length (members categories c)))); [done|].
      destruct (members categories c); [done|simpl in *; lia].
Qed.

(** X15. [display_summary] always prints its three header lines, and it
    raises exactly when [format_size] does on the total of a category that
    holds a file. *)
Theorem display_summary_raises (categories : Categories) :
  summary_header `prefix_of` (display_summary categories).1
  ∧ ((display_summary categories).2 = None
     ↔ ∃ c, members categories c ≠ []
            ∧ format_size (sum (snd <$> members categories c)) = None).
Proof.
  split; [|apply display_summary_None].
  unfold display_summary. rewrite !print_bind. cbn [fst]. by eexists.
Qed.

(** ** The files section, when a size is out of range *)

Lemma elem_of_dict_values (group : gmap string (list FileInfo)) info :
  info ∈ concat (dict_values group)
  ↔ ∃ ext files, group !! ext = Some files ∧ info ∈ files.
Proof.
  unfold dict_values. split.
  - intros Hin. apply list_elem_of_In, in_concat in Hin as (files & Hf & Hi).
    apply list_elem_of_In, list_elem_of_fmap in Hf as ([ext files'] & -> & Hm).
    apply elem_of_map_to_list in Hm. exists ext, files'. split; [done|].
    by apply list_elem_of_In.
  - intros (ext & files & Hl & Hi). apply list_elem_of_In, in_concat.
    exists files. split; [|by apply list_elem_of_In].
    apply list_elem_of_In, list_elem_of_fmap. exists (ext, files).
    split; [done|]. by apply elem_of_map_to_list.
Qed.

Section files_section_raises.
Variable colored : string → string → string.

Lemma print_file_None indent color info :
  (print_file colored indent color info).2 = None ↔ format_size info.2 = None.
Proof. unfold print_file, try_call. by destruct (format_size info.2). Qed.

Lemma for_each_print_file_None indent color files :
  (for_each files (print_file colored indent color)).2 = None
  ↔ ∃ info, info ∈ files ∧ format_size info.2 = None.
Proof. rewrite for_each_None. by setoid_rewrite print_file_None. Qed.

Lemma print_group_None color group :
  (print_group colored color group).2 = None
  ↔ ∃ info, info ∈ concat (dict_values group) ∧ format_size info.2 = None.
Proof.
  unfold print_group. rewrite for_each_None. split.
  - intros (ext & Hext & Hn).
    rewrite sorted_by_perm in Hext.
    apply list_elem_of_fmap in Hext as ([ext' files] & Heq & Hin). cbn in Heq. subst ext.
    apply elem_of_map_to_list in Hin.
    rewrite (lookup_total_correct _ _ _ Hin) in Hn.
    destruct (nonempty files); [|done].
    rewrite print_bind in Hn. cbn [snd] in Hn.
    apply for_each_print_file_None in Hn as (info & Hi & Hf).
    exists info. split; [|done]. apply elem_of_dict_values. eauto.
  - intros (info & (ext & files & Hl & Hi)%elem_of_dict_values & Hf).
    exists ext. split.
    + rewrite sorted_by_perm. apply list_elem_of_fmap. exists (ext, files).
      split; [done|]. by apply elem_of_map_to_list.
    + rewrite (lookup_total_correct _ _ _ Hl).
      destruct files as [|x files]; [by apply not_elem_of_nil in Hi|].
      cbn [nonempty]. rewrite print_bind. cbn [snd].
      apply for_each_print_file_None. eauto.
Qed.

Lemma display_files_None (categories : Categories) :
  (display_files colored categories).2 = None
  ↔ ∃ c info, info ∈ members categories c ∧ format_size info.2 = None.
Proof.
  unfold display_files. rewrite print_bind. cbn [snd].
  rewrite for_each_None, items_all_categories. split.
  - intros ([category g] & (c & [= -> ->] & _)%list_elem_of_fmap & Hn).
    exists c. destruct c as [c|]; cbn [category_group members] in *.
    + destruct (existsb nonempty _); [|done]. cbn [negb] in Hn.
      rewrite print_bind in Hn. cbn [snd] in Hn.
      destruct (String.eqb _ _); by apply print_group_None in Hn.
    + destruct (nonempty _); [|done]. cbn [negb] in Hn.
      rewrite print_bind in Hn. cbn [snd] in Hn.
      by apply for_each_print_file_None in Hn.
  - intros (c & info & Hi & Hf).
    exists (category_name c, category_group categories c). split.
    + apply list_elem_of_fmap. exists c. split; [done|].
      apply elem_of_all_categories.
    + destruct c as [c|]; cbn [category_group members] in *.
      * rewrite existsb_nonempty_concat.
        destruct (concat _) as [|x l] eqn:E; [by apply not_elem_of_nil in Hi|].
        cbn [nonempty negb]. rewrite print_bind. cbn [snd].
        destruct (String.eqb _ _); apply print_group_None; rewrite E; eauto.
      * destruct (other categories) as [|x l] eqn:E; [by apply not_elem_of_nil in Hi|].
        cbn [nonempty negb]. rewrite print_bind. cbn [snd].
        apply for_each_print_file_None. eauto.
Qed.

(** X16. [display_files] always prints the rule first, and it raises
    exactly when [format_size] does on the size of a file that a category
    holds. *)
Theorem display_files_raises (categories : Categories) :
  [string_of_list_ascii (repeat "-"%char 40)]
    `prefix_of` (display_files colored categories).1
  ∧ ((display_files colored categories).2 = None
     ↔ ∃ c info, info ∈ members categories c ∧ format_size info.2 = None).
Proof.
  split; [|apply display_files_None].
  unfold display_files. rewrite print_bind. cbn [fst]. by eexists.
Qed.
End files_section_raises.

(** ** The whole run *)

Lemma sum_nonneg l : Forall (fun x => 0 ≤ x) l → 0 ≤ sum l.
Proof.
  induction 1 as [|x l Hx _ IH]; [done|]. rewrite sum_cons. lia.
Qed.

Lemma elem_le_sum l x : Forall (fun x => 0 ≤ x) l → x ∈ l → x ≤ sum l.
Proof.
  induction 1 as [|y l Hy Hl IH]; intros Hin; [by apply not_elem_of_nil in Hin|].
  rewrite sum_cons. pose proof (sum_nonneg l Hl).
  apply elem_of_cons in Hin as [->|Hin]; [lia|]. specialize (IH Hin). lia.
Qed.

Section whole_run.
Variable colored : string → string → string.
Variable guess_type : string → option string.
Variable directory : string.

Lemma regular_sizes_nonneg entries :
  (∀ entry, entry ∈ entries → is_file entry = true → 0 ≤ st_size entry) →
  Forall (fun x => 0 ≤ x) (st_size <$> filter (fun e => is_file e = true) entries).
Proof.
  intros H. apply Forall_fmap, Forall_forall.
  intros entry [Hf Hin]%list_elem_of_filter. by apply H.
Qed.

Lemma sizes_in_range_of_total entries :
  (∀ entry, entry ∈ entries → is_file entry = true → 0 ≤ st_size entry) →
  sum (st_size <$> filter (fun e => is_file e = true) entries) < 2 ^ 1024 →
  sizes_in_range entries.
Proof.
  intros Hpos Htot entry Hin Hf. split; [by apply Hpos|].
  eapply Z.le_lt_trans; [|exact Htot].
  apply elem_le_sum; [by apply regular_sizes_nonneg|].
  apply list_elem_of_fmap_2. by apply list_elem_of_filter.
Qed.

Lemma category_totals_in_range entries c :
  (∀ entry, entry ∈ entries → is_file entry = true → 0 ≤ st_size entry) →
  sum (st_size <$> filter (fun e => is_file e = true) entries) < 2 ^ 1024 →
  0 ≤ sum (snd <$> members (categorize_files guess_type directory entries) c) < 2 ^ 1024.
Proof.
  intros Hpos Htot.
  assert (∀ c', 0 ≤ sum (snd <$> members (categorize_files guess_type directory entries) c'))
    as Hnn.
  { intros c'. apply sum_nonneg. rewrite members_categorize_files.
    apply Forall_fmap, Forall_forall. intros info Hin.
    apply list_elem_of_fmap in Hin as (entry & -> & [[Hf _] Hin]%list_elem_of_filter).
    by apply Hpos. }
  split; [done|]. eapply Z.le_lt_trans; [|exact Htot].
  replace (st_size <$> filter (fun e => is_file e = true) entries)
    with (snd <$> (file_info <$> filter (fun e => is_file e = true) entries))
    by (by rewrite <-list_fmap_compose).
  rewrite <-(members_weight guess_type directory snd).
  apply elem_le_sum.
  - apply Forall_fmap, Forall_forall. intros c' _. apply Hnn.
  - apply (list_elem_of_fmap_2
             (fun c => sum (snd <$> members (categorize_files guess_type directory entries) c))).
    apply elem_of_all_categories.
Qed.


End whole_run.

(** ** The report of concrete scans *)



